(** * Tickless OS support on STM32

    A shallow embedding of [arch/arm/src/stm32/stm32_tickless.c].

    The file wires two peripheral drivers together: a one-shot timer
    ([stm32_oneshot_*]) that delivers the interval expiry and a free-running
    timer ([stm32_freerun_*]) that is the time source.  Both drivers, the
    high-resolution clock [hrt_*], the [PROBE] and [PANIC] macros and the
    scheduler entry point [sched_timer_expiration] live in other files; they
    enter the embedding as the fields of a [platform].  The five functions of
    the file itself are written as state-passing programs over that
    interface, every call that leaves the file being recorded in a log. *)

From Stdlib Require Import ZArith List Bool Lia Sorted.
Import ListNotations.
Local Open Scope Z_scope.

(** ** C data *)

(** [struct timespec]. *)
Record timespec : Type := mk_timespec { tv_sec : Z; tv_nsec : Z }.

Definition OK : Z := 0.
Definition NULL : Z := 0.

(** [int] (32 bits, two's complement) and [uint64_t], with their wrap-around. *)
Definition wrap_int (z : Z) : Z := (z + 2 ^ 31) mod 2 ^ 32 - 2 ^ 31.
Definition wrap_u64 (z : Z) : Z := z mod 2 ^ 64.

(** The values of type [oneshot_handler_t] that this file creates: the
    address of its only callback. *)
Inductive oneshot_handler_t : Type := stm32_oneshot_handler_ptr.

(** A pointer to a [struct timespec] is [None] when it is [NULL] and
    otherwise [Some v], [v] being what the pointed-to object holds. *)
Definition timespec_ptr : Type := option timespec.

(** ** Calls that leave the file *)

Inductive call : Type :=
| Call_stm32_oneshot_initialize (chan resolution : Z)
| Call_stm32_freerun_initialize (chan resolution : Z)
| Call_stm32_freerun_counter
| Call_stm32_oneshot_start (handler : oneshot_handler_t) (arg : Z) (ts : timespec)
| Call_stm32_oneshot_cancel
| Call_hrt_init
| Call_hrt_absolute_time
| Call_PROBE (n : Z) (on : bool)
| Call_sched_timer_expiration
| Call_PANIC.

Definition call_eqb_start (c : call) : bool :=
  match c with Call_stm32_oneshot_start _ _ _ => true | _ => false end.
Definition call_eqb_cancel (c : call) : bool :=
  match c with Call_stm32_oneshot_cancel => true | _ => false end.
Definition call_eqb_expiration (c : call) : bool :=
  match c with Call_sched_timer_expiration => true | _ => false end.

Definition count_calls (f : call -> bool) (l : list call) : nat :=
  fold_left (fun n c => if f c then S n else n) l O.

(** ** What the file is compiled against

    [oneshot_s] and [freerun_s] are the driver structures declared in
    [stm32_oneshot.h] and [stm32_freerun.h]; [world] is everything else the
    outside functions can see or change (peripheral registers, the
    high-resolution clock, the scheduler).  A driver function receives the
    structure its pointer argument designates and hands back the structure as
    it left it.  The three [CONFIG_] constants come from the board
    configuration.

    [oneshot_irq] stands for the one-shot timer interrupt: where the running
    code can be interrupted, [oneshot_irq o w = Some (o', w')] says that the
    interrupt is taken there, that the driver's service routine leaves its
    structure and the world as [o'] and [w'], and that it then calls the
    callback registered by the last [stm32_oneshot_start].

    The functions outside reach the state of this file through the pointers
    they are given and through that interrupt, not otherwise. *)
Record platform : Type := {
  oneshot_s : Type;
  freerun_s : Type;
  world : Type;
  CONFIG_STM32_TICKLESS_ONESHOT : Z;
  CONFIG_STM32_TICKLESS_FREERUN : Z;
  CONFIG_USEC_PER_TICK : Z;
  stm32_oneshot_initialize :
    oneshot_s -> Z -> Z -> world -> Z * oneshot_s * world;
  stm32_freerun_initialize :
    freerun_s -> Z -> Z -> world -> Z * freerun_s * world;
  stm32_freerun_counter :
    freerun_s -> timespec_ptr -> world -> Z * timespec_ptr * freerun_s * world;
  stm32_oneshot_start :
    oneshot_s -> oneshot_handler_t -> Z -> timespec -> world ->
    Z * oneshot_s * world;
  stm32_oneshot_cancel :
    oneshot_s -> timespec_ptr -> world -> Z * timespec_ptr * oneshot_s * world;
  hrt_init : world -> world;
  hrt_absolute_time : world -> Z * world;
  PROBE : Z -> bool -> world -> world;
  sched_timer_expiration : world -> world;
  oneshot_irq : oneshot_s -> world -> option (oneshot_s * world)
}.

Section Tickless.

Variable P : platform.

(** [struct stm32_tickless_s] and the file's two objects of static storage
    duration, [g_tickless] and [test_cnt], together with the world outside
    and the log of calls (most recent first). *)
Record stm32_tickless_s : Type := mk_tickless {
  oneshot : oneshot_s P;
  freerun : freerun_s P
}.

Record system : Type := mk_system {
  g_tickless : stm32_tickless_s;
  test_cnt : Z;
  outside : world P;
  calls : list call
}.

(** A function of the file returns, or does not return because it ran into
    [PANIC()], or is still in a busy-wait loop when the budget of loop
    rounds given to it is used up. *)
Inductive outcome (A : Type) : Type :=
| Returns (a : A) (m : system)
| Halts (m : system)
| Spins (m : system).
Arguments Returns {A} a m.
Arguments Halts {A} m.
Arguments Spins {A} m.

Definition M (A : Type) : Type := system -> outcome A.

Definition ret {A : Type} (a : A) : M A := fun m => Returns a m.

Definition bind {A B : Type} (x : M A) (f : A -> M B) : M B :=
  fun m =>
    match x m with
    | Returns a m' => f a m'
    | Halts m' => Halts m'
    | Spins m' => Spins m'
    end.

Definition machine_of {A : Type} (o : outcome A) : system :=
  match o with Returns _ m => m | Halts m => m | Spins m => m end.

Definition halted {A : Type} (o : outcome A) : bool :=
  match o with Halts _ => true | _ => false end.

Definition returned {A : Type} (o : outcome A) : bool :=
  match o with Returns _ _ => true | _ => false end.

Definition value_of {A : Type} (o : outcome A) : option A :=
  match o with Returns a _ => Some a | _ => None end.

Local Notation "x <- a ;; b" := (bind a (fun x => b))
  (at level 100, a at next level, right associativity).
Local Notation "a ;;; b" := (bind a (fun _ => b))
  (at level 100, right associativity).

Definition record (c : call) (m : system) : system :=
  mk_system (g_tickless m) (test_cnt m) (outside m) (c :: calls m).

Definition set_outside (w : world P) (m : system) : system :=
  mk_system (g_tickless m) (test_cnt m) w (calls m).

Definition set_oneshot (o : oneshot_s P) (m : system) : system :=
  mk_system (mk_tickless o (freerun (g_tickless m)))
            (test_cnt m) (outside m) (calls m).

Definition set_freerun (f : freerun_s P) (m : system) : system :=
  mk_system (mk_tickless (oneshot (g_tickless m)) f)
            (test_cnt m) (outside m) (calls m).

Definition set_test_cnt (c : Z) (m : system) : system :=
  mk_system (g_tickless m) c (outside m) (calls m).

(** Modelled from the spec: the macro [PANIC()], which is defined outside
    this file.  A failed initialisation "is fatal" and "must halt the
    system": the call is made and does not return. *)
Definition do_PANIC {A : Type} : M A :=
  fun m => Halts (record Call_PANIC m).

Definition do_PROBE (n : Z) (on : bool) : M unit :=
  fun m => Returns tt (set_outside (PROBE P n on (outside m))
                                   (record (Call_PROBE n on) m)).

Definition do_hrt_init : M unit :=
  fun m => Returns tt (set_outside (hrt_init P (outside m))
                                   (record Call_hrt_init m)).

Definition do_hrt_absolute_time : M Z :=
  fun m =>
    let '(t, w) := hrt_absolute_time P (outside m) in
    Returns t (set_outside w (record Call_hrt_absolute_time m)).

(** *** [stm32_oneshot_handler]

    With [CONFIG_DEBUG_TIMER] off, [tcllvdbg] expands to nothing; what is
    left is [test_cnt++] followed by the call of
    [sched_timer_expiration]. *)
Definition stm32_oneshot_handler (arg : Z) : M unit :=
  fun m =>
    let m1 := set_test_cnt (wrap_int (test_cnt m + 1)) m in
    Returns tt (set_outside (sched_timer_expiration P (outside m1))
                            (record Call_sched_timer_expiration m1)).

(** A place where the one-shot interrupt may be taken: between two steps
    of the code that runs with interrupts enabled. *)
Definition irq_window : M unit :=
  fun m =>
    match oneshot_irq P (oneshot (g_tickless m)) (outside m) with
    | Some (o, w) => stm32_oneshot_handler NULL (set_outside w (set_oneshot o m))
    | None => Returns tt m
    end.

(** A read of the [volatile] counter [test_cnt]: the value read is the one
    left by whatever interrupt has been taken up to the read. *)
Definition read_test_cnt : M Z :=
  irq_window ;;; (fun m => Returns (test_cnt m) m).

(** *** [up_timer_gettime] *)
Definition up_timer_gettime (ts : timespec_ptr) : M (Z * timespec_ptr) :=
  fun m =>
    let '(r, ts', f, w) :=
      stm32_freerun_counter P (freerun (g_tickless m)) ts (outside m) in
    Returns (r, ts')
            (set_outside w (set_freerun f (record Call_stm32_freerun_counter m))).

(** *** [up_timer_cancel] *)
Definition up_timer_cancel (ts : timespec_ptr) : M (Z * timespec_ptr) :=
  fun m =>
    let '(r, ts', o, w) :=
      stm32_oneshot_cancel P (oneshot (g_tickless m)) ts (outside m) in
    Returns (r, ts')
            (set_outside w (set_oneshot o (record Call_stm32_oneshot_cancel m))).

(** *** [up_timer_start] *)
Definition up_timer_start (ts : timespec) : M Z :=
  fun m =>
    let '(r, o, w) :=
      stm32_oneshot_start P (oneshot (g_tickless m))
                          stm32_oneshot_handler_ptr NULL ts (outside m) in
    Returns r
            (set_outside w
               (set_oneshot o
                  (record (Call_stm32_oneshot_start
                             stm32_oneshot_handler_ptr NULL ts) m))).

(** *** [up_timer_initialize] *)

(** The automatic variables of [up_timer_initialize] that outlive one
    round of its loops.  [remain] is not initialised by the function: its
    first value is whatever the stack holds. *)
Record locals : Type := mk_locals {
  bk : Z; st : Z; delay : Z;
  ts_ : timespec; remain : timespec;
  Ts : Z; Tn : Z; D : Z; Dt : Z
}.

Definition locals_init (stack : timespec) : locals :=
  mk_locals 0 0 0 (mk_timespec 0 0) stack 0 0 0 0.

(** The statements under [if (D >= (delay/2))], up to the [break].  The
    interrupt may still be taken between the reading of the clock that
    gave [D] and the call of [up_timer_cancel], and again once the call
    has returned, should the driver have left an expiry pending.  The sum
    stored in [bk] is taken in [Z] and reduced to the [uint64_t] it is
    stored in. *)
Definition cancel_and_compare (v : locals) : M locals :=
  irq_window ;;;
  r <- up_timer_cancel (Some (remain v)) ;;
  irq_window ;;;
  let remain' := match snd r with Some t => t | None => remain v end in
  let bk' := wrap_u64 (Z.quot (tv_nsec remain') 1000 + tv_sec remain' * 1000000) in
  let Dt' := wrap_u64 (bk' - delay v / 2) in
  let st' := if bk' =? delay v / 2 then wrap_u64 (st v + 1)
             else wrap_u64 (st v - 1) in
  ret (mk_locals bk' st' (delay v) (ts_ v) remain' (Ts v) (Tn v) (D v) Dt').

(** [while(cnt == test_cnt) { ... }], given [spin] evaluations of its
    condition.  The loop runs with interrupts enabled: the one-shot
    interrupt may be taken before the condition reads [test_cnt], between
    that read and the reading of the clock, between the reading of the
    clock and the cancellation, and after the cancellation. *)
Fixpoint busy_wait (spin : nat) (cnt : Z) (v : locals) : M locals :=
  match spin with
  | O => fun m => Spins m
  | S spin' =>
      c <- read_test_cnt ;;
      if cnt =? c then
        irq_window ;;;
        t <- do_hrt_absolute_time ;;
        let v1 := mk_locals (bk v) (st v) (delay v) (ts_ v) (remain v)
                            (Ts v) (wrap_u64 t)
                            (wrap_u64 (wrap_u64 t - Ts v)) (Dt v) in
        if delay v1 / 2 <=? D v1 then cancel_and_compare v1
        else busy_wait spin' cnt v1
      else ret v
  end.

(** The body of [while(j--)].  From the return of [up_timer_start] to
    the lowering of the probe the alarm may be armed, and its interrupt
    may be taken between any two steps.  Before [up_timer_start] the alarm
    of the round is not armed yet; an interrupt left over from the round
    before is taken at the read of [test_cnt]. *)
Definition sweep_body (spin : nat) (s i : Z) (v : locals) : M locals :=
  let ts1 := mk_timespec s (i * 1000) in
  cnt <- read_test_cnt ;;
  do_PROBE 3 true ;;;
  let delay1 := wrap_u64 (Z.quot (tv_nsec ts1) 1000 + tv_sec ts1 * 1000000) in
  _r <- up_timer_start ts1 ;;
  irq_window ;;;
  t <- do_hrt_absolute_time ;;
  v2 <- busy_wait spin cnt
          (mk_locals (bk v) (st v) delay1 ts1 (remain v)
                     (wrap_u64 t) (Tn v) (D v) (Dt v)) ;;
  irq_window ;;;
  do_PROBE 3 false ;;;
  ret v2.

(** [int j = 2; while(j--) { ... }] *)
Fixpoint while_j (j : nat) (body : locals -> M locals) (v : locals) : M locals :=
  match j with
  | O => ret v
  | S j' => v' <- body v ;; while_j j' body v'
  end.

(** [for (x = x0; x < hi; x += step) { ... }], at most [n] rounds. *)
Fixpoint for_loop (n : nat) (x hi step : Z)
         (body : Z -> locals -> M locals) (v : locals) : M locals :=
  match n with
  | O => ret v
  | S n' =>
      if x <? hi then v' <- body x v ;; for_loop n' (x + step) hi step body v'
      else ret v
  end.

Definition sweep (spin : nat) (stack : timespec) : M unit :=
  _v <- for_loop 6 0 5 1
          (fun s =>
             for_loop 151 50 15000 100
               (fun i => while_j 2 (sweep_body spin s i)))
          (locals_init stack) ;;
  ret tt.

Definition call_stm32_oneshot_initialize (chan resolution : Z) : M Z :=
  fun m =>
    let '(r, o, w) :=
      stm32_oneshot_initialize P (oneshot (g_tickless m)) chan resolution
                               (outside m) in
    Returns r
            (set_outside w
               (set_oneshot o
                  (record (Call_stm32_oneshot_initialize chan resolution) m))).

Definition call_stm32_freerun_initialize (chan resolution : Z) : M Z :=
  fun m =>
    let '(r, f, w) :=
      stm32_freerun_initialize P (freerun (g_tickless m)) chan resolution
                               (outside m) in
    Returns r
            (set_outside w
               (set_freerun f
                  (record (Call_stm32_freerun_initialize chan resolution) m))).

Definition up_timer_initialize (spin : nat) (stack : timespec) : M unit :=
  r1 <- call_stm32_oneshot_initialize (CONFIG_STM32_TICKLESS_ONESHOT P)
                                      (CONFIG_USEC_PER_TICK P) ;;
  (if r1 <? 0 then do_PANIC else ret tt) ;;;
  r2 <- call_stm32_freerun_initialize (CONFIG_STM32_TICKLESS_FREERUN P)
                                      (CONFIG_USEC_PER_TICK P) ;;
  (if r2 <? 0 then do_PANIC else ret tt) ;;;
  do_hrt_init ;;;
  sweep spin stack.

End Tickless.

Arguments oneshot {P} _.
Arguments freerun {P} _.
Arguments mk_tickless {P} _ _.
Arguments g_tickless {P} _.
Arguments test_cnt {P} _.
Arguments outside {P} _.
Arguments calls {P} _.
Arguments mk_system {P} _ _ _ _.
Arguments Returns {P A} a m.
Arguments Halts {P A} m.
Arguments Spins {P A} m.
Arguments ret {P A} a _.
Arguments bind {P A B} x f _.
Arguments machine_of {P A} o.
Arguments halted {P A} o.
Arguments returned {P A} o.
Arguments value_of {P A} o.
Arguments record {P} c m.
Arguments set_outside {P} w m.
Arguments set_oneshot {P} o m.
Arguments set_freerun {P} f m.
Arguments set_test_cnt {P} c m.
Arguments stm32_oneshot_handler {P} arg _.
Arguments irq_window {P} _.
Arguments read_test_cnt {P} _.
Arguments up_timer_gettime {P} ts _.
Arguments up_timer_cancel {P} ts _.
Arguments up_timer_start {P} ts _.
Arguments up_timer_initialize {P} spin stack _.

(** ** The drivers as the specification describes them *)

Module Spec.

Definition NSEC_PER_SEC : Z := 1000000000.
Definition NSEC_PER_USEC : Z := 1000.

(** Modelled from the spec: the conversion between the kernel's
    {seconds, nanoseconds} pairs and native ticks, done inside the absent
    drivers [stm32_oneshot.c] and [stm32_freerun.c]; [resolution] is the
    duration of one tick in microseconds, the unit of
    [CONFIG_USEC_PER_TICK].  The nanoseconds of a result are normalised
    into [0, 1e9). *)
Definition ticks_of_timespec (resolution : Z) (ts : timespec) : Z :=
  (tv_sec ts * NSEC_PER_SEC + tv_nsec ts) / (resolution * NSEC_PER_USEC).

Definition timespec_of_ticks (resolution ticks : Z) : timespec :=
  let ns := ticks * (resolution * NSEC_PER_USEC) in
  mk_timespec (ns / NSEC_PER_SEC) (ns mod NSEC_PER_SEC).

(** Modelled from the spec: the two peripherals behind the absent drivers.
    The counter is a register of [width] bits that increments at the tick
    rate and wraps; [wraps] counts its wrap-arounds since it was started.
    The three [option] fields say whether the counter or the alarm refuses
    to initialise, or the alarm refuses a new deadline, and with which
    [errno]. *)
Record hardware : Type := mk_hardware {
  counter_fault : option positive;
  alarm_fault : option positive;
  alarm_busy : option positive;
  width : N;
  count : Z;
  wraps : Z
}.

Definition modulus (h : hardware) : Z := 2 ^ Z.of_N (width h).

(** Modelled from the spec: [counter_read() -> ticks], the raw count, and
    the tick total that a reading is converted from, which "accounts for
    the counter's wrap width". *)
Definition counter_read (h : hardware) : Z := count h.

Definition now (h : hardware) : Z := wraps h * modulus h + counter_read h.

(** [n] ticks of real time go by. *)
Definition elapse (n : Z) (h : hardware) : hardware :=
  mk_hardware (counter_fault h) (alarm_fault h) (alarm_busy h) (width h)
              ((count h + n) mod modulus h)
              (wraps h + (count h + n) / modulus h).

(** Modelled from the spec: the alarm half of the tickless state, declared
    in the absent [stm32_oneshot.h].  The state machine of the spec has the
    two states [IDLE] and [ARMED]; an armed alarm holds its deadline, in
    ticks of the counter, and the registered callback. *)
Inductive alarm_state : Type :=
| IDLE
| ARMED (deadline : Z) (callback : oneshot_handler_t) (arg : Z).

Record oneshot_s : Type := mk_oneshot {
  alarm_resolution : Z;
  alarm : alarm_state
}.

(** Modelled from the spec: the counter half of the tickless state,
    declared in the absent [stm32_freerun.h]. *)
Record freerun_s : Type := mk_freerun { counter_resolution : Z }.

(** Modelled from the spec: [alarm_initialize(resolution) -> Result<(),
    Fault>] of the absent [stm32_oneshot.c]; it leaves the alarm
    disarmed. *)
Definition alarm_initialize (o : oneshot_s) (chan resolution : Z)
           (h : hardware) : Z * oneshot_s * hardware :=
  match alarm_fault h with
  | Some e => (Z.neg e, o, h)
  | None => (OK, mk_oneshot resolution IDLE, h)
  end.

(** Modelled from the spec: [counter_initialize(resolution) -> Result<(),
    Fault>] of the absent [stm32_freerun.c]; it leaves the counter running
    from zero. *)
Definition counter_initialize (f : freerun_s) (chan resolution : Z)
           (h : hardware) : Z * freerun_s * hardware :=
  match counter_fault h with
  | Some e => (Z.neg e, f, h)
  | None =>
      (OK, mk_freerun resolution,
       mk_hardware (counter_fault h) (alarm_fault h) (alarm_busy h)
                   (width h) 0 0)
  end.

(** Modelled from the spec: [alarm_arm(deadline_ticks, callback) ->
    Result<(), Fault>] of the absent [stm32_oneshot.c].  It fails only
    when the peripheral cannot accept a new deadline; otherwise the new
    deadline supersedes whatever was armed. *)
Definition alarm_arm (o : oneshot_s) (deadline : Z)
           (callback : oneshot_handler_t) (arg : Z) (h : hardware)
  : Z * oneshot_s * hardware :=
  match alarm_busy h with
  | Some e => (Z.neg e, o, h)
  | None => (OK, mk_oneshot (alarm_resolution o) (ARMED deadline callback arg), h)
  end.

(** Modelled from the spec: [alarm_disarm() -> (pending_or_fired,
    remaining_ticks)] of the absent [stm32_oneshot.c], after the three
    outcomes of [cancel]: (c) an idle alarm has nothing pending and nothing
    remaining; (a) an alarm that has not reached its deadline is disarmed,
    with [deadline - now] remaining; (b) an alarm whose deadline has passed
    without its interrupt having been taken is "already expired": the flag
    is set, nothing remains, and "the already-pending interrupt is allowed
    to deliver" the one notification of that expiry, which is what takes
    the alarm to [IDLE]. *)
Definition alarm_disarm (o : oneshot_s) (h : hardware)
  : bool * Z * oneshot_s :=
  match alarm o with
  | IDLE => (false, 0, o)
  | ARMED d _ _ =>
      if d <=? now h then (true, 0, o)
      else (false, d - now h, mk_oneshot (alarm_resolution o) IDLE)
  end.

Definition store (ts : timespec_ptr) (v : timespec) : timespec_ptr :=
  match ts with Some _ => Some v | None => None end.

(** Modelled from the spec: [stm32_oneshot_start] of the absent
    [stm32_oneshot.c], after the contract of [start]: the interval is
    converted to ticks and counted from "now" as read at the moment of
    arming. *)
Definition oneshot_start (o : oneshot_s) (callback : oneshot_handler_t)
           (arg : Z) (ts : timespec) (h : hardware)
  : Z * oneshot_s * hardware :=
  alarm_arm o (now h + ticks_of_timespec (alarm_resolution o) ts)
            callback arg h.

(** Modelled from the spec: [stm32_oneshot_cancel] of the absent
    [stm32_oneshot.c], after the contract of [cancel]: success in each of
    its three cases, the remaining time being stored when the caller gave
    a place for it. *)
Definition oneshot_cancel (o : oneshot_s) (ts : timespec_ptr) (h : hardware)
  : Z * timespec_ptr * oneshot_s * hardware :=
  let '(_, remaining, o') := alarm_disarm o h in
  (OK, store ts (timespec_of_ticks (alarm_resolution o) remaining), o', h).

(** Modelled from the spec: [stm32_freerun_counter] of the absent
    [stm32_freerun.c], after the contract of [gettime]: read the counter,
    convert ticks at the fixed resolution, normalise. *)
Definition freerun_counter (f : freerun_s) (ts : timespec_ptr) (h : hardware)
  : Z * timespec_ptr * freerun_s * hardware :=
  (OK, store ts (timespec_of_ticks (counter_resolution f) (now h)), f, h).

(** Modelled from the spec: the transition [ARMED --fires (HW)--> IDLE
    (+ notify)] of the alarm's state machine, taken by the interrupt
    routine of the absent [stm32_oneshot.c] once the deadline is reached. *)
Definition alarm_fires (o : oneshot_s) (h : hardware)
  : option (oneshot_s * hardware) :=
  match alarm o with
  | IDLE => None
  | ARMED d _ _ =>
      if d <=? now h then Some (mk_oneshot (alarm_resolution o) IDLE, h)
      else None
  end.

End Spec.

(** Modelled from the spec: the platform made of the drivers above, in
    place of the absent [stm32_oneshot.c] and [stm32_freerun.c].  The
    specification says nothing of the high-resolution clock and of [PROBE],
    which only the diagnostic loop of [up_timer_initialize] uses, nor of
    what the scheduler does on expiry: here a reading of the clock takes one
    tick of time, and [PROBE] and the scheduler leave the hardware alone. *)
Definition spec_platform (oneshot_chan freerun_chan usec_per_tick : Z)
  : platform :=
  {| oneshot_s := Spec.oneshot_s;
     freerun_s := Spec.freerun_s;
     world := Spec.hardware;
     CONFIG_STM32_TICKLESS_ONESHOT := oneshot_chan;
     CONFIG_STM32_TICKLESS_FREERUN := freerun_chan;
     CONFIG_USEC_PER_TICK := usec_per_tick;
     stm32_oneshot_initialize := Spec.alarm_initialize;
     stm32_freerun_initialize := Spec.counter_initialize;
     stm32_freerun_counter := Spec.freerun_counter;
     stm32_oneshot_start := Spec.oneshot_start;
     stm32_oneshot_cancel := Spec.oneshot_cancel;
     hrt_init := fun h => h;
     hrt_absolute_time :=
       fun h => (wrap_u64 (Spec.now h * usec_per_tick), Spec.elapse 1 h);
     PROBE := fun _ _ h => h;
     sched_timer_expiration := fun h => h;
     oneshot_irq := Spec.alarm_fires |}.

(** The system at reset: static storage zeroed, nothing called yet. *)
Definition at_reset (a b c : Z) (h : Spec.hardware) : system (spec_platform a b c) :=
  mk_system (P := spec_platform a b c)
            (mk_tickless (P := spec_platform a b c)
                         (Spec.mk_oneshot 0 Spec.IDLE) (Spec.mk_freerun 0))
            0 h [].

(** ** Runs of the public operations on the specified drivers *)

(** Timestamps are compared seconds first. *)
Definition timespec_le (x y : timespec) : Prop :=
  tv_sec x < tv_sec y \/ (tv_sec x = tv_sec y /\ tv_nsec x <= tv_nsec y).

Definition nsec_in_range (t : timespec) : Prop :=
  0 <= tv_nsec t < 1000000000.

(** What can happen once the clock is initialised: time goes by, the
    scheduler calls one of the three operations, the one-shot interrupt is
    taken. *)
Inductive event : Type :=
| Elapse (ticks : N)
| Gettime
| Start (ts : timespec)
| Cancel (want_remaining : bool)
| Interrupt.

Definition is_gettime (e : event) : bool :=
  match e with Gettime => true | _ => false end.
Definition is_start (e : event) : bool :=
  match e with Start _ => true | _ => false end.
Definition is_cancel (e : event) : bool :=
  match e with Cancel _ => true | _ => false end.
Definition is_interrupt (e : event) : bool :=
  match e with Interrupt => true | _ => false end.

(** The events that leave an armed interval to itself: the scheduler
    neither arms anew nor cancels. *)
Definition stays_armed (e : event) : bool :=
  negb (is_start e) && negb (is_cancel e).


Definition not_start (e : event) : bool := negb (is_start e).

(** The ticks that go by in a sequence of events. *)
Fixpoint ticks_elapsed (l : list event) : Z :=
  match l with
  | [] => 0
  | Elapse n :: l' => Z.of_N n + ticks_elapsed l'
  | _ :: l' => ticks_elapsed l'
  end.

(** With [t] ticks to go to a deadline, every point of [l] at which the
    interrupt could be taken comes before the deadline. *)
Fixpoint windows_before (t : Z) (l : list event) : bool :=
  match l with
  | [] => true
  | Elapse n :: l' => windows_before (t - Z.of_N n) l'
  | Interrupt :: l' => (0 <? t) && windows_before t l'
  | _ :: l' => windows_before t l'
  end.

Section SpecRuns.

Variables oneshot_chan freerun_chan usec_per_tick : Z.

Definition spec_system : Type :=
  system (spec_platform oneshot_chan freerun_chan usec_per_tick).

Definition elapsed (n : Z) (m : spec_system) : spec_system :=
  set_outside (P := spec_platform oneshot_chan freerun_chan usec_per_tick)
              (Spec.elapse n (outside m)) m.

(** One event: the timestamp read, if the event is a [Gettime] that
    returned one, and the system afterwards. *)
Definition step (e : event) (m : spec_system) : option timespec * spec_system :=
  match e with
  | Elapse n => (None, elapsed (Z.of_N n) m)
  | Gettime =>
      let o := up_timer_gettime (Some (mk_timespec 0 0)) m in
      (match value_of o with Some (_, t) => t | None => None end, machine_of o)
  | Start ts => (None, machine_of (up_timer_start ts m))
  | Cancel want =>
      (None,
       machine_of (up_timer_cancel
                     (if want then Some (mk_timespec 0 0) else None) m))
  | Interrupt => (None, machine_of (irq_window m))
  end.

Fixpoint gettime_readings (l : list event) (m : spec_system) : list timespec :=
  match l with
  | [] => []
  | e :: l' =>
      match fst (step e m) with
      | Some t => t :: gettime_readings l' (snd (step e m))
      | None => gettime_readings l' (snd (step e m))
      end
  end.

(** The system after a sequence of events. *)
Fixpoint after_events (l : list event) (m : spec_system) : spec_system :=
  match l with
  | [] => m
  | e :: l' => after_events l' (snd (step e m))
  end.

(** The number of ticks that the one-shot driver makes of an interval. *)
Definition start_ticks (ts : timespec) (m : spec_system) : Z :=
  Spec.ticks_of_timespec (Spec.alarm_resolution (oneshot (g_tickless m))) ts.

End SpecRuns.

Arguments elapsed {oneshot_chan freerun_chan usec_per_tick} n m.
Arguments step {oneshot_chan freerun_chan usec_per_tick} e m.
Arguments gettime_readings {oneshot_chan freerun_chan usec_per_tick} l m.
Arguments after_events {oneshot_chan freerun_chan usec_per_tick} l m.
Arguments start_ticks {oneshot_chan freerun_chan usec_per_tick} ts m.

(** ** Sample hardware

    A board with timer 2 as the one-shot timer, timer 5 as the free-running
    timer and 32-bit counters, in the conditions the statements below are
    tried in. *)

Definition hw_fresh : Spec.hardware :=
  Spec.mk_hardware None None None 32 0 0.

(** The one-shot timer does not initialise ([ENODEV]). *)
Definition hw_no_alarm : Spec.hardware :=
  Spec.mk_hardware None (Some 19%positive) None 32 0 0.

(** The free-running timer does not initialise ([ENODEV]). *)
Definition hw_no_counter : Spec.hardware :=
  Spec.mk_hardware (Some 19%positive) None None 32 0 0.

(** The one-shot timer refuses a deadline, with the given [errno]. *)
Definition hw_refusing (e : positive) : Spec.hardware :=
  Spec.mk_hardware None None (Some e) 32 1000 0.

(** The counter is three ticks away from wrapping. *)
Definition hw_near_wrap : Spec.hardware :=
  Spec.mk_hardware None None None 32 (2 ^ 32 - 3) 0.

(** The system once both timers are initialised with a tick of [usec]
    microseconds and the alarm is idle. *)
Definition initialised (usec : Z) (h : Spec.hardware)
  : system (spec_platform 2 5 usec) :=
  mk_system (P := spec_platform 2 5 usec)
            (mk_tickless (P := spec_platform 2 5 usec)
                         (Spec.mk_oneshot usec Spec.IDLE) (Spec.mk_freerun usec))
            0 h [].

(** ** The log only grows *)

Definition extends {P : platform} (m m' : system P) : Prop :=
  exists l, calls m' = l ++ calls m.

Definition grows {P : platform} {A : Type} (x : M P A) : Prop :=
  forall m, extends m (machine_of (x m)).

(** ** Notions for the behaviour of the file as a whole *)

Definition call_eqb_probe (on : bool) (c : call) : bool :=
  match c with Call_PROBE n b => (n =? 3) && Bool.eqb b on | _ => false end.
Definition call_eqb_panic (c : call) : bool :=
  match c with Call_PANIC => true | _ => false end.
Definition call_eqb_hrt_init (c : call) : bool :=
  match c with Call_hrt_init => true | _ => false end.

(** The notifications of the scheduler made so far. *)
Definition notified {P : platform} (m : system P) : nat :=
  count_calls call_eqb_expiration (calls m).
Arguments notified {P} m : simpl never.

(** A relation between the system before and after that a program keeps
    whatever its outcome. *)
Definition keeps {P : platform} {A : Type}
           (R : system P -> system P -> Prop) (x : M P A) : Prop :=
  forall m, R m (machine_of (x m)).

Definition never_halts {P : platform} {A : Type} (x : M P A) : Prop :=
  forall m, halted (x m) = false.

Definition always_returns {P : platform} {A : Type} (x : M P A) : Prop :=
  forall m, returned (x m) = true.

(** When the program returns, it has added between [lo] and [hi] calls of
    the kind [f] to the log. *)
Definition adds {P : platform} {A : Type} (f : call -> bool) (lo hi : nat)
           (x : M P A) : Prop :=
  forall m a m',
    x m = Returns a m' ->
    (count_calls f (calls m) + lo <= count_calls f (calls m') /\
     count_calls f (calls m') <= count_calls f (calls m) + hi)%nat.

(** [n] times [test_cnt++]. *)
Definition bumped (n : nat) (c : Z) : Z :=
  Nat.iter n (fun c => wrap_int (c + 1)) c.

(** The log has grown by calls of which as many are notifications of the
    scheduler as [test_cnt] has been incremented. *)
Definition counted {P : platform} (m m' : system P) : Prop :=
  exists l,
    calls m' = l ++ calls m /\
    test_cnt m' = bumped (count_calls call_eqb_expiration l) (test_cnt m).

(** The intervals of the diagnostic loop: 0 to 4 seconds, and 50, 150, ...,
    14950 microseconds. *)
Definition sweep_interval (ts : timespec) : bool :=
  (0 <=? tv_sec ts) && (tv_sec ts <=? 4) &&
  (50000 <=? tv_nsec ts) && (tv_nsec ts <=? 14950000) &&
  (tv_nsec ts mod 100000 =? 50000).

Definition sweep_call (c : call) : bool :=
  match c with
  | Call_stm32_oneshot_start _ arg ts => (arg =? NULL) && sweep_interval ts
  | _ => true
  end.

Definition only_adds {P : platform} (ok : call -> bool) (m m' : system P)
  : Prop :=
  exists l, calls m' = l ++ calls m /\ forallb ok l = true.

(** The number of armed intervals that have come to an end so far, by an
    expiry or by a cancellation. *)
Definition ended {P : platform} (m : system P) : nat :=
  (count_calls call_eqb_cancel (calls m)
   + count_calls call_eqb_expiration (calls m))%nat.

Definition ends_at_least {P : platform} {A : Type} (n : nat) (x : M P A)
  : Prop :=
  forall m a m', x m = Returns a m' -> (ended m + n <= ended m')%nat.

Definition weight (f : call -> bool) (c : call) : nat :=
  if f c then 1%nat else 0%nat.

(** The number of rounds that [for_loop] makes. *)
Fixpoint rounds (n : nat) (x hi step : Z) : nat :=
  match n with
  | O => O
  | S n' => if x <? hi then S (rounds n' (x + step) hi step) else O
  end.

(** The scheduler's requests, one after the other. *)
Inductive request : Type :=
| Req_gettime (p : timespec_ptr)
| Req_start (ts : timespec)
| Req_cancel (p : timespec_ptr).

Definition is_gettime_request (r : request) : bool :=
  match r with Req_gettime _ => true | _ => false end.

Definition driver_call (r : request) : call :=
  match r with
  | Req_gettime _ => Call_stm32_freerun_counter
  | Req_start ts => Call_stm32_oneshot_start stm32_oneshot_handler_ptr NULL ts
  | Req_cancel _ => Call_stm32_oneshot_cancel
  end.

Definition serve {P : platform} (r : request) : M P Z :=
  match r with
  | Req_gettime p => bind (up_timer_gettime p) (fun v => ret (fst v))
  | Req_start ts => up_timer_start ts
  | Req_cancel p => bind (up_timer_cancel p) (fun v => ret (fst v))
  end.

Fixpoint serve_all {P : platform} (l : list request) : M P (list Z) :=
  match l with
  | [] => ret []
  | r :: l' =>
      bind (serve r) (fun s => bind (serve_all l') (fun ss => ret (s :: ss)))
  end.

(** What the busy-wait loop needs of the high-resolution clock to come to
    an end by itself: a reading shows the time [clock] of the world, takes
    at least one microsecond and at most [a], and an interrupt neither
    turns the clock back nor takes more than [a]. *)
Definition clock_advances (P : platform) (clock : world P -> Z) (a : Z)
  : Prop :=
  (forall w,
      wrap_u64 (fst (hrt_absolute_time P w)) = wrap_u64 (clock w) /\
      clock w + 1 <= clock (snd (hrt_absolute_time P w)) <= clock w + a) /\
  (forall o w o' w',
      oneshot_irq P o w = Some (o', w') ->
      clock w <= clock (sched_timer_expiration P w') <= clock w + a).

(** A board whose high-resolution clock stands still and whose one-shot
    interrupt is never taken, the drivers being otherwise those of the
    specification. *)
Definition stalled_platform : platform :=
  {| oneshot_s := Spec.oneshot_s;
     freerun_s := Spec.freerun_s;
     world := Spec.hardware;
     CONFIG_STM32_TICKLESS_ONESHOT := 2;
     CONFIG_STM32_TICKLESS_FREERUN := 5;
     CONFIG_USEC_PER_TICK := 1000;
     stm32_oneshot_initialize := Spec.alarm_initialize;
     stm32_freerun_initialize := Spec.counter_initialize;
     stm32_freerun_counter := Spec.freerun_counter;
     stm32_oneshot_start := Spec.oneshot_start;
     stm32_oneshot_cancel := Spec.oneshot_cancel;
     hrt_init := fun h => h;
     hrt_absolute_time := fun h => (0, h);
     PROBE := fun _ _ h => h;
     sched_timer_expiration := fun h => h;
     oneshot_irq := fun _ _ => None |}.

Definition stalled_at_reset : system stalled_platform :=
  mk_system (P := stalled_platform)
            (mk_tickless (P := stalled_platform)
                         (Spec.mk_oneshot 0 Spec.IDLE) (Spec.mk_freerun 0))
            0 hw_fresh [].

(** ** The configuration the file accepts

    The conditional directives of the file, from [#ifdef
    CONFIG_SCHED_TICKLESS] down to the private types.  A configuration says
    which of the symbols are defined and, for the two timer numbers, as
    which decimal number. *)
Record config : Type := mk_config {
  SCHED_TICKLESS : bool;
  STM32_ONESHOT : bool;
  STM32_FREERUN : bool;
  STM32_TICKLESS_ONESHOT : option Z;
  STM32_TICKLESS_FREERUN : option Z;
  STM32_TIM : Z -> bool
}.

(** The [#error] directives of the file, by the message they give. *)
Inductive build_error : Type :=
| Error_ONESHOT_must_be_selected
| Error_FREERUN_must_be_selected
| Error_TICKLESS_FREERUN_must_be_selected
| Error_TICKLESS_ONESHOT_must_be_selected
| Error_ONESHOT_TIM_not_selected (n : Z)
| Error_TICKLESS_ONESHOT_not_valid
| Error_FREERUN_TIM_not_selected (n : Z)
| Error_TICKLESS_FREERUN_not_valid
| Error_FREERUN_same_as_ONESHOT.

(** An operand of [#if]: 64 bits, taken as [intmax_t] or, when it is
    unsigned, as [uintmax_t]. *)
Record operand : Type := mk_operand { bits : Z; is_unsigned : bool }.

(** An integer constant.  One that is too large for 64 bits is cut down to
    them; one that is then too large for [intmax_t] is unsigned. *)
Definition literal (n : Z) : operand :=
  mk_operand (n mod 2 ^ 64) (2 ^ 63 <=? n mod 2 ^ 64).

(** Unary minus. *)
Definition negated (x : operand) : operand :=
  mk_operand ((- bits x) mod 2 ^ 64) (is_unsigned x).

(** The operand that a symbol defined as the decimal number [z] stands
    for: a constant, with a minus sign before it when [z] is negative. *)
Definition operand_of (z : Z) : operand :=
  if z <? 0 then negated (literal (- z)) else literal z.

Definition signed_value (x : operand) : Z :=
  if bits x <? 2 ^ 63 then bits x else bits x - 2 ^ 64.

(** [==] and [<]: when one of the two operands is unsigned, both are
    compared as unsigned. *)
Definition cpp_eqb (x y : operand) : bool := bits x =? bits y.

Definition cpp_ltb (x y : operand) : bool :=
  if is_unsigned x || is_unsigned y then bits x <? bits y
  else signed_value x <? signed_value y.

(** In an [#if], a symbol that is not defined counts as 0. *)
Definition macro_value (v : option Z) : operand :=
  match v with Some z => operand_of z | None => literal 0 end.

(** The numbers that make signed operands, for which the comparisons above
    are those of [Z]. *)
Definition fits_intmax (v : option Z) : bool :=
  match v with
  | Some z => (- 2 ^ 63 <? z) && (z <? 2 ^ 63)
  | None => true
  end.

Definition timer_numbers : list Z := [1; 2; 3; 4; 5; 6; 7; 8; 9; 10; 11; 12; 13; 14].

(** [#if v == 1 && !defined(CONFIG_STM32_TIM1) ... #elif v == 2 && ...]:
    the first branch whose condition holds gives its error. *)
Fixpoint tim_chain (mk : Z -> build_error) (v : operand) (tim : Z -> bool)
         (ns : list Z) : list build_error :=
  match ns with
  | [] => []
  | n :: ns' =>
      if cpp_eqb v (literal n) && negb (tim n) then [mk n]
      else tim_chain mk v tim ns'
  end.

Definition when (b : bool) (e : build_error) : list build_error :=
  if b then [e] else [].

(** The errors that the directives give, in the order of the file.  The
    second directive tests [CONFIG_STM32_ONESHOT], as the first does, and
    not [CONFIG_STM32_FREERUN], which its message names. *)
Definition build_errors (c : config) : list build_error :=
  if SCHED_TICKLESS c then
    let o := macro_value (STM32_TICKLESS_ONESHOT c) in
    let f := macro_value (STM32_TICKLESS_FREERUN c) in
    when (negb (STM32_ONESHOT c)) Error_ONESHOT_must_be_selected ++
    when (negb (STM32_ONESHOT c)) Error_FREERUN_must_be_selected ++
    when (match STM32_TICKLESS_FREERUN c with None => true | _ => false end)
         Error_TICKLESS_FREERUN_must_be_selected ++
    when (match STM32_TICKLESS_ONESHOT c with None => true | _ => false end)
         Error_TICKLESS_ONESHOT_must_be_selected ++
    tim_chain Error_ONESHOT_TIM_not_selected o (STM32_TIM c) timer_numbers ++
    when (cpp_ltb o (literal 1) || cpp_ltb (literal 14) o)
         Error_TICKLESS_ONESHOT_not_valid ++
    tim_chain Error_FREERUN_TIM_not_selected f (STM32_TIM c) timer_numbers ++
    when (cpp_ltb f (literal 1) || cpp_ltb (literal 14) f)
         Error_TICKLESS_FREERUN_not_valid ++
    when (cpp_eqb f o) Error_FREERUN_same_as_ONESHOT
  else [].

(** A configuration for timers 2 and 5. *)
Definition config_2_5 : config :=
  mk_config true true true (Some 2) (Some 5)
            (fun n => (n =? 2) || (n =? 5)).

(** ** Properties of the log *)

Lemma count_calls_shift (f : call -> bool) (l : list call) (n : nat) :
  fold_left (fun k c => if f c then S k else k) l n =
  (n + count_calls f l)%nat.
Proof.
  unfold count_calls. revert n.
  induction l as [|c l IH]; intros n; simpl.
  - lia.
  - rewrite IH. rewrite (IH (if f c then 1%nat else 0%nat)).
    destruct (f c); lia.
Qed.

Lemma count_calls_cons (f : call -> bool) (c : call) (l : list call) :
  count_calls f (c :: l) =
  ((if f c then 1 else 0) + count_calls f l)%nat.
Proof.
  unfold count_calls at 1. simpl. rewrite count_calls_shift.
  destruct (f c); reflexivity.
Qed.

Lemma wrap_int_id (z : Z) : - 2 ^ 31 <= z < 2 ^ 31 -> wrap_int z = z.
Proof.
  intros H. unfold wrap_int. rewrite Z.mod_small; lia.
Qed.

(** ** The callback and the three thin operations, on any platform *)

Section AnyPlatform.

Variable P : platform.
Implicit Types m : system P.

(** C9.  Whatever its argument and the system it interrupts, one run of
    [stm32_oneshot_handler] returns, adds exactly one call — of
    [sched_timer_expiration] — to the log, increments [test_cnt] once
    (as an [int], so with its wrap-around) and leaves [g_tickless], both
    the one-shot and the free-running half, as it found it; the world
    outside changes only by what the scheduler does in that call. *)
Theorem stm32_oneshot_handler_notifies_once :
  forall (arg : Z) m,
    exists m',
      stm32_oneshot_handler arg m = Returns tt m' /\
      calls m' = Call_sched_timer_expiration :: calls m /\
      count_calls call_eqb_expiration (calls m') =
        S (count_calls call_eqb_expiration (calls m)) /\
      test_cnt m' = wrap_int (test_cnt m + 1) /\
      g_tickless m' = g_tickless m /\
      outside m' = sched_timer_expiration P (outside m).
Proof.
  intros arg m. eexists. split; [reflexivity|].
  cbn [calls test_cnt g_tickless outside set_outside record set_test_cnt].
  rewrite count_calls_cons. cbn [call_eqb_expiration].
  repeat split; reflexivity.
Qed.

(** C10.  [up_timer_gettime] hands [&g_tickless.freerun] and nothing else
    of the file's state to the driver: it returns what
    [stm32_freerun_counter] returns for that half, logs that one call,
    and leaves the one-shot half of [g_tickless] and [test_cnt]
    untouched, for every driver and every argument. *)
Theorem up_timer_gettime_leaves_oneshot :
  forall (ts : timespec_ptr) m,
    exists r m',
      up_timer_gettime ts m = Returns r m' /\
      oneshot (g_tickless m') = oneshot (g_tickless m) /\
      test_cnt m' = test_cnt m /\
      calls m' = Call_stm32_freerun_counter :: calls m /\
      (r, freerun (g_tickless m'), outside m') =
        (let '(s, t, f, w) :=
           stm32_freerun_counter P (freerun (g_tickless m)) ts (outside m)
         in ((s, t), f, w)).
Proof.
  intros ts m. unfold up_timer_gettime.
  destruct (stm32_freerun_counter P (freerun (g_tickless m)) ts (outside m))
    as [[[s t] f] w].
  do 2 eexists. split; [reflexivity|].
  cbn. repeat split; reflexivity.
Qed.

(** C8, as the code has it.  The three operations that return a status
    return the driver's own status, untouched: [up_timer_gettime] that of
    [stm32_freerun_counter], [up_timer_cancel] that of
    [stm32_oneshot_cancel], [up_timer_start] that of
    [stm32_oneshot_start]. *)
Theorem up_timer_status_is_driver_status :
  forall (ts : timespec) (p : timespec_ptr) m,
    option_map fst (value_of (up_timer_gettime p m)) =
      Some (fst (fst (fst (stm32_freerun_counter
                             P (freerun (g_tickless m)) p (outside m))))) /\
    option_map fst (value_of (up_timer_cancel p m)) =
      Some (fst (fst (fst (stm32_oneshot_cancel
                             P (oneshot (g_tickless m)) p (outside m))))) /\
    value_of (up_timer_start ts m) =
      Some (fst (fst (stm32_oneshot_start
                        P (oneshot (g_tickless m))
                        stm32_oneshot_handler_ptr NULL ts (outside m)))).
Proof.
  intros ts p m. unfold up_timer_gettime, up_timer_cancel, up_timer_start.
  destruct (stm32_freerun_counter P (freerun (g_tickless m)) p (outside m))
    as [[[s1 t1] f1] w1].
  destruct (stm32_oneshot_cancel P (oneshot (g_tickless m)) p (outside m))
    as [[[s2 t2] o2] w2].
  destruct (stm32_oneshot_start P (oneshot (g_tickless m))
              stm32_oneshot_handler_ptr NULL ts (outside m))
    as [[s3 o3] w3].
  repeat split; reflexivity.
Qed.

(** C2.  When [stm32_oneshot_initialize] returns a negative status,
    [up_timer_initialize] does not return: it stops in [PANIC()] right
    after that call, without initialising the free-running timer.  When
    the one-shot timer initialises and [stm32_freerun_initialize] returns
    a negative status, it stops in [PANIC()] right after that second
    call.  In neither case is there a value returned to the caller. *)
Theorem up_timer_initialize_panics_on_failure :
  forall (spin : nat) (stack : timespec) m (r1 : Z) (m1 : system P),
    call_stm32_oneshot_initialize P (CONFIG_STM32_TICKLESS_ONESHOT P)
                                  (CONFIG_USEC_PER_TICK P) m
      = Returns r1 m1 ->
    (r1 < 0 ->
     up_timer_initialize spin stack m = Halts (record Call_PANIC m1)) /\
    (forall (r2 : Z) (m2 : system P),
        0 <= r1 ->
        call_stm32_freerun_initialize P (CONFIG_STM32_TICKLESS_FREERUN P)
                                      (CONFIG_USEC_PER_TICK P) m1
          = Returns r2 m2 ->
        r2 < 0 ->
        up_timer_initialize spin stack m = Halts (record Call_PANIC m2)).
Proof.
  intros spin stack m r1 m1 H1. split.
  - intros Hr. unfold up_timer_initialize, bind. rewrite H1.
    apply Z.ltb_lt in Hr. rewrite Hr. reflexivity.
  - intros r2 m2 Hr1 H2 Hr2. unfold up_timer_initialize, bind. rewrite H1.
    apply Z.ltb_ge in Hr1. rewrite Hr1. unfold ret at 1. rewrite H2.
    apply Z.ltb_lt in Hr2. rewrite Hr2. reflexivity.
Qed.

End AnyPlatform.

(** ** The diagnostic loop of [up_timer_initialize] *)

Section Growth.

Variable P : platform.
Implicit Types m : system P.

Lemma extends_refl m : extends m m.
Proof. exists []. reflexivity. Qed.

Lemma extends_trans m1 m2 m3 :
  extends m1 m2 -> extends m2 m3 -> extends m1 m3.
Proof.
  intros [l1 H1] [l2 H2]. exists (l2 ++ l1).
  rewrite H2, H1. apply app_assoc.
Qed.

Lemma grows_ret (A : Type) (a : A) : grows (ret (P := P) a).
Proof. intros m. apply extends_refl. Qed.

Lemma bind_extends (A B : Type) (x : M P A) (f : A -> M P B) m :
  (forall a, grows (f a)) ->
  extends (machine_of (x m)) (machine_of (bind x f m)).
Proof.
  intros Hf. unfold bind. destruct (x m) as [a m'| m' | m']; cbn.
  - apply Hf.
  - apply extends_refl.
  - apply extends_refl.
Qed.

Lemma bind_returns (A B : Type) (x : M P A) (f : A -> M P B) m a m' :
  x m = Returns a m' -> bind x f m = f a m'.
Proof. intros H. unfold bind. rewrite H. reflexivity. Qed.

Lemma grows_bind (A B : Type) (x : M P A) (f : A -> M P B) :
  grows x -> (forall a, grows (f a)) -> grows (bind x f).
Proof.
  intros Hx Hf m. eapply extends_trans; [apply Hx|].
  apply bind_extends, Hf.
Qed.

Lemma grows_if (A : Type) (b : bool) (x y : M P A) :
  grows x -> grows y -> grows (if b then x else y).
Proof. destruct b; auto. Qed.

Lemma grows_do_PANIC (A : Type) : grows (do_PANIC P (A := A)).
Proof. intros m. exists [Call_PANIC]. reflexivity. Qed.

Lemma grows_do_PROBE n on : grows (do_PROBE P n on).
Proof. intros m. exists [Call_PROBE n on]. reflexivity. Qed.

Lemma grows_do_hrt_init : grows (do_hrt_init P).
Proof. intros m. exists [Call_hrt_init]. reflexivity. Qed.

Lemma grows_do_hrt_absolute_time : grows (do_hrt_absolute_time P).
Proof.
  intros m. unfold do_hrt_absolute_time.
  destruct (hrt_absolute_time P (outside m)) as [t w].
  exists [Call_hrt_absolute_time]. reflexivity.
Qed.

Lemma grows_stm32_oneshot_handler arg :
  grows (stm32_oneshot_handler (P := P) arg).
Proof. intros m. exists [Call_sched_timer_expiration]. reflexivity. Qed.

(** An interrupt window returns, with at most one expiry logged. *)
Lemma irq_window_returns m :
  exists m' l,
    irq_window m = Returns tt m' /\ calls m' = l ++ calls m /\
    (l = [] \/ l = [Call_sched_timer_expiration]).
Proof.
  unfold irq_window.
  destruct (oneshot_irq P (oneshot (g_tickless m)) (outside m)) as [[o w]|].
  - eexists. exists [Call_sched_timer_expiration].
    split; [reflexivity|]. split; [reflexivity|]. now right.
  - exists m, []. split; [reflexivity|]. split; [reflexivity|]. now left.
Qed.

Lemma grows_irq_window : grows (irq_window (P := P)).
Proof.
  intros m. destruct (irq_window_returns m) as (m' & l & H & Hc & _).
  rewrite H. exists l. exact Hc.
Qed.

Lemma read_test_cnt_returns m :
  exists c m' l,
    read_test_cnt m = Returns c m' /\ calls m' = l ++ calls m /\
    (l = [] \/ l = [Call_sched_timer_expiration]).
Proof.
  destruct (irq_window_returns m) as (m' & l & H & Hc & Hl).
  exists (test_cnt m'), m', l. unfold read_test_cnt, bind.
  rewrite H. auto.
Qed.

Lemma grows_read_test_cnt : grows (read_test_cnt (P := P)).
Proof.
  intros m. destruct (read_test_cnt_returns m) as (c & m' & l & H & Hc & _).
  rewrite H. exists l. exact Hc.
Qed.

(** [up_timer_start] returns after its one call of the driver, in which it
    registers [stm32_oneshot_handler] with a null argument. *)
Lemma up_timer_start_returns ts m :
  exists r m',
    up_timer_start ts m = Returns r m' /\
    calls m' =
      Call_stm32_oneshot_start stm32_oneshot_handler_ptr NULL ts :: calls m.
Proof.
  unfold up_timer_start.
  destruct (stm32_oneshot_start P (oneshot (g_tickless m))
              stm32_oneshot_handler_ptr NULL ts (outside m)) as [[r o] w].
  do 2 eexists. split; reflexivity.
Qed.

Lemma grows_up_timer_start ts : grows (up_timer_start (P := P) ts).
Proof.
  intros m. destruct (up_timer_start_returns ts m) as (r & m' & H & Hc).
  rewrite H. eexists [_]. exact Hc.
Qed.

(** [up_timer_cancel] returns after its one call of the driver; it calls
    nothing else, the scheduler included, and leaves [test_cnt] alone. *)
Lemma up_timer_cancel_returns ts m :
  exists r m',
    up_timer_cancel ts m = Returns r m' /\
    calls m' = Call_stm32_oneshot_cancel :: calls m /\
    test_cnt m' = test_cnt m /\
    freerun (g_tickless m') = freerun (g_tickless m).
Proof.
  unfold up_timer_cancel.
  destruct (stm32_oneshot_cancel P (oneshot (g_tickless m)) ts (outside m))
    as [[[r t] o] w].
  do 2 eexists. repeat split.
Qed.

Lemma grows_up_timer_cancel ts : grows (up_timer_cancel (P := P) ts).
Proof.
  intros m. destruct (up_timer_cancel_returns ts m) as (r & m' & H & Hc & _).
  rewrite H. eexists [_]. exact Hc.
Qed.

Lemma grows_cancel_and_compare v : grows (cancel_and_compare P v).
Proof.
  unfold cancel_and_compare.
  apply grows_bind; [apply grows_irq_window|]. intros _.
  apply grows_bind; [apply grows_up_timer_cancel|]. intros r.
  apply grows_bind; [apply grows_irq_window|]. intros _.
  apply grows_ret.
Qed.

Lemma grows_busy_wait spin : forall cnt v, grows (busy_wait P spin cnt v).
Proof.
  induction spin as [|spin IH]; intros cnt v.
  - intros m. apply extends_refl.
  - cbn [busy_wait]. apply grows_bind; [apply grows_read_test_cnt|].
    intros c. apply grows_if; [|apply grows_ret].
    apply grows_bind; [apply grows_irq_window|]. intros _.
    apply grows_bind; [apply grows_do_hrt_absolute_time|].
    intros t. apply grows_if; [apply grows_cancel_and_compare|apply IH].
Qed.

Lemma grows_sweep_body spin s i v : grows (sweep_body P spin s i v).
Proof.
  unfold sweep_body.
  apply grows_bind; [apply grows_read_test_cnt|]. intros cnt.
  apply grows_bind; [apply grows_do_PROBE|]. intros _.
  apply grows_bind; [apply grows_up_timer_start|]. intros _.
  apply grows_bind; [apply grows_irq_window|]. intros _.
  apply grows_bind; [apply grows_do_hrt_absolute_time|]. intros t.
  apply grows_bind; [apply grows_busy_wait|]. intros v2.
  apply grows_bind; [apply grows_irq_window|]. intros _.
  apply grows_bind; [apply grows_do_PROBE|]. intros _.
  apply grows_ret.
Qed.

Lemma grows_while_j (body : locals -> M P locals) :
  (forall v, grows (body v)) ->
  forall j v, grows (while_j P j body v).
Proof.
  intros Hb. induction j as [|j IH]; intros v; cbn [while_j].
  - apply grows_ret.
  - apply grows_bind; [apply Hb|]. intros v'. apply IH.
Qed.

Lemma grows_for_loop (body : Z -> locals -> M P locals) hi step :
  (forall x v, grows (body x v)) ->
  forall n x v, grows (for_loop P n x hi step body v).
Proof.
  intros Hb. induction n as [|n IH]; intros x v; cbn [for_loop].
  - apply grows_ret.
  - apply grows_if; [|apply grows_ret].
    apply grows_bind; [apply Hb|]. intros v'. apply IH.
Qed.

Lemma for_loop_enter n x hi step (body : Z -> locals -> M P locals) v :
  (x <? hi) = true ->
  for_loop P (S n) x hi step body v =
  bind (body x v) (fun v' => for_loop P n (x + step) hi step body v').
Proof. intros H. cbn [for_loop]. rewrite H. reflexivity. Qed.

(** The first thing the loop does, after sampling [test_cnt], is to raise
    the probe and to arm the alarm for 50 microseconds. *)
Lemma sweep_body_arms spin s i v m :
  exists l1 l2,
    calls (machine_of (sweep_body P spin s i v m)) =
      l1 ++ [Call_stm32_oneshot_start stm32_oneshot_handler_ptr NULL
               (mk_timespec s (i * 1000));
             Call_PROBE 3 true] ++ l2 ++ calls m /\
    (l2 = [] \/ l2 = [Call_sched_timer_expiration]).
Proof.
  destruct (read_test_cnt_returns m) as (cnt & m1 & l2 & H1 & Hc1 & Hl2).
  destruct (up_timer_start_returns
              (mk_timespec s (i * 1000))
              (set_outside (PROBE P 3 true (outside m1))
                           (record (Call_PROBE 3 true) m1)))
    as (r & m3 & H3 & Hc3).
  unfold sweep_body.
  rewrite (bind_returns _ _ _ _ _ _ _ H1).
  rewrite (bind_returns _ _ (do_PROBE P 3 true) _ _ _ _ eq_refl).
  rewrite (bind_returns _ _ _ _ _ _ _ H3).
  match goal with
  | |- context [machine_of (?k m3)] => assert (G : grows k)
  end.
  { apply grows_bind; [apply grows_irq_window|]. intros _.
    apply grows_bind; [apply grows_do_hrt_absolute_time|]. intros t.
    apply grows_bind; [apply grows_busy_wait|]. intros v2.
    apply grows_bind; [apply grows_irq_window|]. intros _.
    apply grows_bind; [apply grows_do_PROBE|]. intros _.
    apply grows_ret. }
  destruct (G m3) as [l1 Hl1].
  exists l1, l2. split; [|exact Hl2].
  rewrite Hl1, Hc3. cbn [calls set_outside record]. rewrite Hc1. reflexivity.
Qed.

Lemma sweep_arms spin stack m :
  exists l1 l2,
    calls (machine_of (sweep P spin stack m)) =
      l1 ++ [Call_stm32_oneshot_start stm32_oneshot_handler_ptr NULL
               (mk_timespec 0 50000);
             Call_PROBE 3 true] ++ l2 ++ calls m /\
    (l2 = [] \/ l2 = [Call_sched_timer_expiration]).
Proof.
  destruct (sweep_body_arms spin 0 50 (locals_init stack) m)
    as (l1 & l2 & Hc & Hl2).
  assert (X : extends (machine_of (sweep_body P spin 0 50 (locals_init stack) m))
                      (machine_of (sweep P spin stack m))).
  { unfold sweep.
    eapply extends_trans; [|apply bind_extends; intros; apply grows_ret].
    rewrite (for_loop_enter 5) by reflexivity.
    eapply extends_trans;
      [|apply bind_extends; intros v';
        apply grows_for_loop; intros s v;
        apply grows_for_loop; intros i v0;
        apply grows_while_j; intros v1; apply grows_sweep_body].
    rewrite (for_loop_enter 150) by reflexivity.
    eapply extends_trans;
      [|apply bind_extends; intros v';
        apply grows_for_loop; intros i v0;
        apply grows_while_j; intros v1; apply grows_sweep_body].
    change (while_j P 2 ?b ?v)
      with (bind (b v) (fun v' => while_j P 1 b v')).
    apply bind_extends. intros v'.
    apply grows_while_j; intros v1; apply grows_sweep_body. }
  destruct X as [l0 X]. exists (l0 ++ l1), l2. split; [|exact Hl2].
  rewrite X, Hc. change (50 * 1000) with 50000.
  rewrite <- app_assoc. reflexivity.
Qed.

(** C1, as the code has it.  Once both drivers have initialised — each
    with [CONFIG_USEC_PER_TICK] as its resolution, the one-shot timer
    first — [up_timer_initialize] starts the high-resolution clock and
    enters its diagnostic loop: the log goes on with [PROBE(3, true)] and
    with a call of [stm32_oneshot_start] that arms the alarm for 50
    microseconds with [stm32_oneshot_handler] as its callback, whatever
    the drivers do and however long the busy-wait is followed. *)
Theorem up_timer_initialize_arms_the_alarm :
  forall (spin : nat) (stack : timespec) m (r1 r2 : Z) (m1 m2 : system P),
    call_stm32_oneshot_initialize P (CONFIG_STM32_TICKLESS_ONESHOT P)
                                  (CONFIG_USEC_PER_TICK P) m
      = Returns r1 m1 ->
    0 <= r1 ->
    call_stm32_freerun_initialize P (CONFIG_STM32_TICKLESS_FREERUN P)
                                  (CONFIG_USEC_PER_TICK P) m1
      = Returns r2 m2 ->
    0 <= r2 ->
    exists l1 l2,
      calls (machine_of (up_timer_initialize spin stack m)) =
        l1 ++ [Call_stm32_oneshot_start stm32_oneshot_handler_ptr NULL
                 (mk_timespec 0 50000);
               Call_PROBE 3 true] ++ l2 ++
        [Call_hrt_init;
         Call_stm32_freerun_initialize (CONFIG_STM32_TICKLESS_FREERUN P)
                                       (CONFIG_USEC_PER_TICK P);
         Call_stm32_oneshot_initialize (CONFIG_STM32_TICKLESS_ONESHOT P)
                                       (CONFIG_USEC_PER_TICK P)] ++
        calls m /\
      (l2 = [] \/ l2 = [Call_sched_timer_expiration]).
Proof.
  intros spin stack m r1 r2 m1 m2 H1 Hr1 H2 Hr2.
  assert (C1 : calls m1 =
               Call_stm32_oneshot_initialize (CONFIG_STM32_TICKLESS_ONESHOT P)
                                             (CONFIG_USEC_PER_TICK P) :: calls m).
  { revert H1. unfold call_stm32_oneshot_initialize.
    destruct (stm32_oneshot_initialize P _ _ _ _) as [[r o] w].
    intros H; injection H as _ <-. reflexivity. }
  assert (C2 : calls m2 =
               Call_stm32_freerun_initialize (CONFIG_STM32_TICKLESS_FREERUN P)
                                             (CONFIG_USEC_PER_TICK P) :: calls m1).
  { revert H2. unfold call_stm32_freerun_initialize.
    destruct (stm32_freerun_initialize P _ _ _ _) as [[r f] w].
    intros H; injection H as _ <-. reflexivity. }
  unfold up_timer_initialize. unfold bind at 1. rewrite H1.
  apply Z.ltb_ge in Hr1. rewrite Hr1. unfold bind at 1, ret at 1.
  unfold bind at 1. rewrite H2.
  apply Z.ltb_ge in Hr2. rewrite Hr2. unfold bind at 1, ret at 1.
  unfold bind at 1, do_hrt_init at 1.
  destruct (sweep_arms spin stack
              (set_outside (hrt_init P (outside m2)) (record Call_hrt_init m2)))
    as (l1 & l2 & Hc & Hl2).
  exists l1, l2. split; [|exact Hl2].
  rewrite Hc. cbn [calls set_outside record]. rewrite C2, C1. reflexivity.
Qed.

End Growth.

(** ** The operations on the specified drivers *)

Section OnSpecifiedDrivers.

Variables oneshot_chan freerun_chan usec_per_tick : Z.

Implicit Types m : spec_system oneshot_chan freerun_chan usec_per_tick.

Lemma modulus_pos (h : Spec.hardware) : 0 < Spec.modulus h.
Proof. unfold Spec.modulus. apply Z.pow_pos_nonneg; lia. Qed.

(** The wrap count makes up for what the register loses when it wraps. *)
Lemma now_elapse (n : Z) (h : Spec.hardware) :
  Spec.now (Spec.elapse n h) = Spec.now h + n.
Proof.
  unfold Spec.now, Spec.counter_read, Spec.elapse.
  cbn [Spec.count Spec.wraps].
  change (Spec.modulus (Spec.mk_hardware _ _ _ (Spec.width h) _ _))
    with (Spec.modulus h).
  pose proof (modulus_pos h) as Hpos.
  pose proof (Z.div_mod (Spec.count h + n) (Spec.modulus h)) as E.
  nia.
Qed.

Lemma timespec_le_refl (t : timespec) : timespec_le t t.
Proof. right. split; [reflexivity|apply Z.le_refl]. Qed.

Lemma timespec_le_trans (x y z : timespec) :
  timespec_le x y -> timespec_le y z -> timespec_le x z.
Proof. unfold timespec_le. intros [H|[H1 H2]] [K|[K1 K2]]; lia. Qed.

Lemma timespec_of_ticks_mono (resolution t1 t2 : Z) :
  0 <= resolution -> t1 <= t2 ->
  timespec_le (Spec.timespec_of_ticks resolution t1)
              (Spec.timespec_of_ticks resolution t2).
Proof.
  intros Hr Ht. unfold timespec_le, Spec.timespec_of_ticks.
  cbn [tv_sec tv_nsec].
  set (u := resolution * Spec.NSEC_PER_USEC).
  assert (Hu : 0 <= u) by (unfold u, Spec.NSEC_PER_USEC; lia).
  assert (Hn : t1 * u <= t2 * u) by nia.
  assert (Hs : 0 < Spec.NSEC_PER_SEC) by (unfold Spec.NSEC_PER_SEC; lia).
  pose proof (Z.div_le_mono _ _ _ Hs Hn) as Hd.
  pose proof (Z.div_mod (t1 * u) Spec.NSEC_PER_SEC) as E1.
  pose proof (Z.div_mod (t2 * u) Spec.NSEC_PER_SEC) as E2.
  destruct (Z.eq_dec (t1 * u / Spec.NSEC_PER_SEC) (t2 * u / Spec.NSEC_PER_SEC))
    as [Heq|Hne].
  - right. split; [exact Heq|]. rewrite Heq in E1. lia.
  - left. lia.
Qed.

Lemma timespec_of_ticks_nsec (resolution t : Z) :
  nsec_in_range (Spec.timespec_of_ticks resolution t).
Proof.
  unfold nsec_in_range, Spec.timespec_of_ticks. cbn [tv_nsec].
  apply Z.mod_pos_bound. reflexivity.
Qed.

(** No event turns the counter back or changes its resolution. *)
Lemma step_clock (e : event) m :
  Spec.now (outside m) <= Spec.now (outside (snd (step e m))) /\
  Spec.counter_resolution (freerun (g_tickless (snd (step e m)))) =
  Spec.counter_resolution (freerun (g_tickless m)).
Proof.
  destruct e as [n| |ts|want|]; cbn [step snd].
  - unfold elapsed. cbn. rewrite now_elapse. split; [lia|reflexivity].
  - cbn. split; [lia|reflexivity].
  - unfold up_timer_start. cbn. unfold Spec.oneshot_start, Spec.alarm_arm.
    destruct (Spec.alarm_busy (outside m)); cbn; split; (lia || reflexivity).
  - unfold up_timer_cancel. cbn. unfold Spec.oneshot_cancel, Spec.alarm_disarm.
    destruct (Spec.alarm (oneshot (g_tickless m))) as [|d h x]; cbn;
      [split; (lia || reflexivity)|].
    destruct (d <=? Spec.now (outside m)); cbn; split; (lia || reflexivity).
  - unfold irq_window. cbn. unfold Spec.alarm_fires.
    destruct (Spec.alarm (oneshot (g_tickless m))) as [|d h x]; cbn;
      [split; (lia || reflexivity)|].
    destruct (d <=? Spec.now (outside m)); cbn; split; (lia || reflexivity).
Qed.

(** Only [Gettime] yields a reading: the tick total, converted. *)
Lemma step_reading (e : event) m :
  fst (step e m) =
  if is_gettime e
  then Some (Spec.timespec_of_ticks
               (Spec.counter_resolution (freerun (g_tickless m)))
               (Spec.now (outside m)))
  else None.
Proof. destruct e; reflexivity. Qed.

Lemma gettime_readings_bounded (l : list event) :
  forall m,
    0 <= Spec.counter_resolution (freerun (g_tickless m)) ->
    Forall (timespec_le
              (Spec.timespec_of_ticks
                 (Spec.counter_resolution (freerun (g_tickless m)))
                 (Spec.now (outside m))))
           (gettime_readings l m) /\
    StronglySorted timespec_le (gettime_readings l m).
Proof.
  induction l as [|e l IH]; intros m Hres; cbn [gettime_readings].
  - split; constructor.
  - destruct (step_clock e m) as [Hclock Hsame].
    assert (Hres' : 0 <= Spec.counter_resolution
                           (freerun (g_tickless (snd (step e m)))))
      by (rewrite Hsame; exact Hres).
    destruct (IH _ Hres') as [Hall Hsorted]. rewrite Hsame in Hall.
    assert (Hlow : Forall (timespec_le
                             (Spec.timespec_of_ticks
                                (Spec.counter_resolution (freerun (g_tickless m)))
                                (Spec.now (outside m))))
                          (gettime_readings l (snd (step e m)))).
    { eapply Forall_impl; [|exact Hall]. intros t Ht.
      eapply timespec_le_trans; [|exact Ht].
      apply timespec_of_ticks_mono; assumption. }
    rewrite step_reading. destruct (is_gettime e).
    + split.
      * constructor; [apply timespec_le_refl|exact Hlow].
      * constructor; [exact Hsorted|exact Hlow].
    + split; assumption.
Qed.

Lemma gettime_readings_normalised (l : list event) :
  forall m, Forall nsec_in_range (gettime_readings l m).
Proof.
  induction l as [|e l IH]; intros m; cbn [gettime_readings].
  - constructor.
  - rewrite step_reading. destruct (is_gettime e).
    + constructor; [apply timespec_of_ticks_nsec|apply IH].
    + apply IH.
Qed.

Lemma gettime_readings_length (l : list event) :
  forall m, length (gettime_readings l m) = length (filter is_gettime l).
Proof.
  induction l as [|e l IH]; intros m; cbn [gettime_readings filter].
  - reflexivity.
  - rewrite step_reading. destruct (is_gettime e); cbn [length];
      rewrite IH; reflexivity.
Qed.

(** C3.  Start from any state in which the free-running driver holds a
    resolution that is not negative, and let time go by, the scheduler
    call [up_timer_gettime], [up_timer_start] and [up_timer_cancel], and
    the one-shot interrupt be taken, in any order and any number of
    times.  Every [up_timer_gettime] returns a timestamp; each timestamp
    is at most every later one, however often the counter register has
    wrapped in between; and the nanoseconds of each lie in [0, 1e9). *)
Theorem up_timer_gettime_never_goes_back :
  forall (l : list event) m,
    0 <= Spec.counter_resolution (freerun (g_tickless m)) ->
    length (gettime_readings l m) = length (filter is_gettime l) /\
    StronglySorted timespec_le (gettime_readings l m) /\
    Forall nsec_in_range (gettime_readings l m).
Proof.
  intros l m Hres. split; [apply gettime_readings_length|].
  split; [apply gettime_readings_bounded, Hres|].
  apply gettime_readings_normalised.
Qed.

(** C4.  With the alarm idle, [up_timer_cancel] returns [OK]; the
    remaining time it stores, where the caller asked for it, is zero
    seconds and zero nanoseconds; the alarm stays idle and nothing but the
    driver is called.  And [up_timer_gettime] returns [OK] whatever the
    state: neither operation has a way to fail. *)
Theorem up_timer_cancel_idle_is_ok :
  forall (ts : timespec_ptr) m,
    Spec.alarm (oneshot (g_tickless m)) = Spec.IDLE ->
    (exists m',
        up_timer_cancel ts m =
          Returns (OK, Spec.store ts (mk_timespec 0 0)) m' /\
        Spec.alarm (oneshot (g_tickless m')) = Spec.IDLE /\
        calls m' = Call_stm32_oneshot_cancel :: calls m /\
        test_cnt m' = test_cnt m /\
        outside m' = outside m) /\
    (forall p : timespec_ptr,
        exists t m'', up_timer_gettime p m = Returns (OK, t) m'').
Proof.
  intros ts m Hidle. split.
  - unfold up_timer_cancel. cbn.
    unfold Spec.oneshot_cancel, Spec.alarm_disarm. rewrite Hidle.
    eexists. split; [reflexivity|]. cbn. auto.
  - intros p. unfold up_timer_gettime. cbn. unfold Spec.freerun_counter.
    do 2 eexists. reflexivity.
Qed.

(** C7.  [up_timer_start] makes one call of the driver and returns its
    status: a failure exactly when the peripheral refuses the deadline,
    [OK] exactly when it takes it, with no second attempt.  An interval of
    zero is taken like any other: the alarm is armed with the present
    tick as its deadline, so that the next point at which the interrupt
    can be taken delivers the expiry. *)
Theorem up_timer_start_takes_zero :
  forall m,
    (Spec.alarm_busy (outside m) = None ->
     exists m',
       up_timer_start (mk_timespec 0 0) m = Returns OK m' /\
       Spec.alarm (oneshot (g_tickless m')) =
         Spec.ARMED (Spec.now (outside m)) stm32_oneshot_handler_ptr NULL /\
       exists m'',
         irq_window m' = Returns tt m'' /\
         calls m'' =
           [Call_sched_timer_expiration;
            Call_stm32_oneshot_start stm32_oneshot_handler_ptr NULL
                                     (mk_timespec 0 0)] ++ calls m /\
         Spec.alarm (oneshot (g_tickless m'')) = Spec.IDLE) /\
    (forall ts : timespec,
        exists r m',
          up_timer_start ts m = Returns r m' /\
          calls m' =
            Call_stm32_oneshot_start stm32_oneshot_handler_ptr NULL ts
            :: calls m /\
          (r < 0 <-> Spec.alarm_busy (outside m) <> None) /\
          (r = OK <-> Spec.alarm_busy (outside m) = None)).
Proof.
  intros m. split.
  - intros Hfree. unfold up_timer_start. cbn.
    unfold Spec.oneshot_start, Spec.alarm_arm. rewrite Hfree.
    unfold Spec.ticks_of_timespec. cbn [tv_sec tv_nsec].
    change (0 * Spec.NSEC_PER_SEC + 0) with 0.
    rewrite Zdiv_0_l, Z.add_0_r.
    eexists. split; [reflexivity|]. split; [reflexivity|].
    unfold irq_window. cbn. unfold Spec.alarm_fires. cbn.
    rewrite Z.leb_refl.
    eexists. split; [reflexivity|]. split; reflexivity.
  - intros ts. unfold up_timer_start. cbn.
    unfold Spec.oneshot_start, Spec.alarm_arm.
    destruct (Spec.alarm_busy (outside m)) as [e|].
    + do 2 eexists. split; [reflexivity|]. split; [reflexivity|].
      split; split; intros H; try discriminate; try lia; try congruence.
    + do 2 eexists. split; [reflexivity|]. split; [reflexivity|].
      unfold OK. split; split; intros H; try reflexivity; try lia;
        try congruence.
Qed.

End OnSpecifiedDrivers.

(** ** Expiry and cancellation on the specified drivers *)

Section Expiry.

Variables oneshot_chan freerun_chan usec_per_tick : Z.

Implicit Types m : spec_system oneshot_chan freerun_chan usec_per_tick.

Lemma after_events_app (l1 l2 : list event) :
  forall m, after_events (l1 ++ l2) m = after_events l2 (after_events l1 m).
Proof.
  induction l1 as [|e l1 IH]; intros m; cbn [app after_events];
    [reflexivity|apply IH].
Qed.

Lemma notified_other (m1 m2 : spec_system oneshot_chan freerun_chan usec_per_tick)
      (c : call) :
  calls m2 = c :: calls m1 -> call_eqb_expiration c = false ->
  notified m2 = notified m1.
Proof.
  intros H Hc. unfold notified. rewrite H, count_calls_cons, Hc. reflexivity.
Qed.

Lemma notified_expiry (m1 m2 : spec_system oneshot_chan freerun_chan usec_per_tick) :
  calls m2 = Call_sched_timer_expiration :: calls m1 ->
  notified m2 = S (notified m1).
Proof. intros H. unfold notified. rewrite H. apply count_calls_cons. Qed.

Ltac log_step :=
  first [eapply notified_other; [reflexivity|reflexivity]
        |eapply notified_expiry; reflexivity].

Ltac count_step m :=
  match goal with
  | |- context [notified ?X] =>
      lazymatch X with
      | m => fail
      | _ =>
          let N := fresh "N" in
          first [assert (N : notified X = notified m) by log_step
                |assert (N : notified X = S (notified m)) by log_step];
          rewrite N
      end
  end.

(** An idle alarm stays idle, and silent, until it is armed. *)
Lemma idle_step (e : event) m :
  Spec.alarm (oneshot (g_tickless m)) = Spec.IDLE ->
  is_start e = false ->
  Spec.alarm (oneshot (g_tickless (snd (step e m)))) = Spec.IDLE /\
  notified (snd (step e m)) = notified m.
Proof.
  intros Hidle He.
  destruct e as [n| |ts|want|]; cbn [step snd]; try discriminate He.
  - split; [exact Hidle|reflexivity].
  - split; [exact Hidle|]. log_step.
  - unfold up_timer_cancel. cbn.
    unfold Spec.oneshot_cancel, Spec.alarm_disarm. rewrite Hidle. cbn.
    split; [exact Hidle|]. log_step.
  - unfold irq_window. cbn. unfold Spec.alarm_fires. rewrite Hidle. cbn.
    split; [exact Hidle|reflexivity].
Qed.

Lemma idle_stays (l : list event) :
  forall m,
    Spec.alarm (oneshot (g_tickless m)) = Spec.IDLE ->
    forallb not_start l = true ->
    Spec.alarm (oneshot (g_tickless (after_events l m))) = Spec.IDLE /\
    notified (after_events l m) = notified m.
Proof.
  induction l as [|e l IH]; intros m Hidle Hl;
    [split; [exact Hidle|reflexivity]|].
  cbn [forallb] in Hl. apply andb_prop in Hl. destruct Hl as [He Hl].
  unfold not_start in He. apply negb_true_iff in He.
  destruct (idle_step e m Hidle He) as [Ha Hn].
  destruct (IH _ Ha Hl) as [Ha' Hn'].
  cbn [after_events]. split; [exact Ha'|congruence].
Qed.

(** An armed alarm that is neither armed anew nor cancelled waits, silent,
    as long as the interrupt is not taken at or after its deadline. *)
Lemma armed_step (e : event) m d h x :
  Spec.alarm (oneshot (g_tickless m)) = Spec.ARMED d h x ->
  stays_armed e = true ->
  (is_interrupt e = true -> Spec.now (outside m) < d) ->
  Spec.alarm (oneshot (g_tickless (snd (step e m)))) = Spec.ARMED d h x /\
  notified (snd (step e m)) = notified m /\
  Spec.now (outside (snd (step e m))) =
    Spec.now (outside m) + ticks_elapsed [e].
Proof.
  intros Harmed He Hi.
  destruct e as [n| |ts|want|]; cbn [step snd ticks_elapsed];
    try discriminate He.
  - unfold elapsed. cbn. rewrite now_elapse.
    split; [exact Harmed|]. split; [reflexivity|lia].
  - split; [exact Harmed|]. split; [|cbn; lia].
    log_step.
  - specialize (Hi eq_refl). unfold irq_window. cbn.
    unfold Spec.alarm_fires. rewrite Harmed.
    destruct (d <=? Spec.now (outside m)) eqn:E;
      [apply Z.leb_le in E; lia|].
    cbn. split; [exact Harmed|]. split; [reflexivity|lia].
Qed.

Lemma armed_waits (l : list event) :
  forall m d h x,
    Spec.alarm (oneshot (g_tickless m)) = Spec.ARMED d h x ->
    forallb stays_armed l = true ->
    windows_before (d - Spec.now (outside m)) l = true ->
    Spec.alarm (oneshot (g_tickless (after_events l m))) = Spec.ARMED d h x /\
    notified (after_events l m) = notified m /\
    Spec.now (outside (after_events l m)) =
      Spec.now (outside m) + ticks_elapsed l.
Proof.
  induction l as [|e l IH]; intros m d h x Harmed Hl Hw.
  - cbn. split; [exact Harmed|]. split; [reflexivity|lia].
  - cbn [forallb] in Hl. apply andb_prop in Hl. destruct Hl as [He Hl].
    assert (Hi : is_interrupt e = true -> Spec.now (outside m) < d).
    { destruct e; try discriminate. intros _. cbn [windows_before] in Hw.
      apply andb_prop in Hw. destruct Hw as [Hw _].
      apply Z.ltb_lt in Hw. lia. }
    destruct (armed_step e m d h x Harmed He Hi) as (Ha & Hn & Hc).
    assert (Hw' : windows_before
                    (d - Spec.now (outside (snd (step e m)))) l = true).
    { rewrite Hc. destruct e as [n| |ts|want|]; cbn [windows_before] in Hw;
        cbn [ticks_elapsed].
      - replace (d - (Spec.now (outside m) + (Z.of_N n + 0)))
          with (d - Spec.now (outside m) - Z.of_N n) by ring. exact Hw.
      - rewrite Z.add_0_r. exact Hw.
      - rewrite Z.add_0_r. exact Hw.
      - rewrite Z.add_0_r. exact Hw.
      - rewrite Z.add_0_r. apply andb_prop in Hw. apply Hw. }
    destruct (IH _ _ _ _ Ha Hl Hw') as (Ha' & Hn' & Hc').
    cbn [after_events]. split; [exact Ha'|]. split; [congruence|].
    rewrite Hc', Hc. destruct e; cbn [ticks_elapsed]; lia.
Qed.

(** An alarm whose deadline has passed delivers its notification at the
    next point where the interrupt is taken, and is idle from then on. *)
Lemma expired_fires m d h x :
  Spec.alarm (oneshot (g_tickless m)) = Spec.ARMED d h x ->
  d <= Spec.now (outside m) ->
  Spec.alarm (oneshot (g_tickless (snd (step Interrupt m)))) = Spec.IDLE /\
  notified (snd (step Interrupt m)) = S (notified m).
Proof.
  intros Harmed Hd. cbn [step snd]. unfold irq_window. cbn.
  unfold Spec.alarm_fires. rewrite Harmed.
  apply Z.leb_le in Hd. rewrite Hd. cbn.
  split; [reflexivity|]. log_step.
Qed.



(** The alarm counts for one while it is armed. *)
Lemma at_most_once_per_start (l : list event) :
  forall m,
    (notified (after_events l m)
     + match Spec.alarm (oneshot (g_tickless (after_events l m))) with
       | Spec.IDLE => 0
       | Spec.ARMED _ _ _ => 1
       end
     <= notified m
        + match Spec.alarm (oneshot (g_tickless m)) with
          | Spec.IDLE => 0
          | Spec.ARMED _ _ _ => 1
          end
        + length (filter is_start l))%nat.
Proof.
  induction l as [|e l IH]; intros m; [cbn; lia|].
  cbn [after_events]. specialize (IH (snd (step e m))).
  assert (Hs : (notified (snd (step e m))
                + match Spec.alarm (oneshot (g_tickless (snd (step e m)))) with
                  | Spec.IDLE => 0
                  | Spec.ARMED _ _ _ => 1
                  end
                <= notified m
                   + match Spec.alarm (oneshot (g_tickless m)) with
                     | Spec.IDLE => 0
                     | Spec.ARMED _ _ _ => 1
                     end
                   + (if is_start e then 1 else 0))%nat).
  { destruct e as [n| |ts|want|]; cbn [step snd is_start].
    - change (notified (elapsed (Z.of_N n) m)) with (notified m).
      cbn [elapsed set_outside g_tickless]. lia.
    - count_step m. cbn. lia.
    - unfold up_timer_start. cbn. unfold Spec.oneshot_start, Spec.alarm_arm.
      destruct (Spec.alarm_busy (outside m)); cbn [machine_of];
        count_step m; cbn; destruct (Spec.alarm (oneshot (g_tickless m))); lia.
    - unfold up_timer_cancel. cbn.
      unfold Spec.oneshot_cancel, Spec.alarm_disarm.
      destruct (Spec.alarm (oneshot (g_tickless m))) as [|d h x] eqn:Ea.
      + cbn [machine_of]. count_step m. cbn. rewrite Ea. lia.
      + destruct (d <=? Spec.now (outside m)); cbn [machine_of];
          count_step m; cbn; rewrite ?Ea; lia.
    - unfold irq_window. cbn. unfold Spec.alarm_fires.
      destruct (Spec.alarm (oneshot (g_tickless m))) as [|d h x] eqn:Ea.
      + cbn. rewrite Ea. lia.
      + destruct (d <=? Spec.now (outside m)); cbn [machine_of].
        * count_step m. cbn. lia.
        * cbn. rewrite Ea. lia. }
  cbn [filter]. destruct (is_start e); cbn [length]; lia.
Qed.

(** A successful [up_timer_start] leaves the alarm armed for the present
    tick plus the interval in ticks, and notifies nobody. *)
Lemma up_timer_start_arms (ts : timespec) m m' :
  up_timer_start ts m = Returns OK m' ->
  Spec.alarm (oneshot (g_tickless m')) =
    Spec.ARMED (Spec.now (outside m) + start_ticks ts m)
               stm32_oneshot_handler_ptr NULL /\
  outside m' = outside m /\
  notified m' = notified m.
Proof.
  unfold up_timer_start. cbn. unfold Spec.oneshot_start, Spec.alarm_arm.
  destruct (Spec.alarm_busy (outside m)) as [e|]; cbn.
  - intros H. now inversion H.
  - intros H. inversion H; subst; clear H. cbn.
    split; [reflexivity|]. split; [reflexivity|].
    log_step.
Qed.

(** C6.  Modelled from the spec, for the absent one-shot driver.  Let
    [up_timer_start] succeed, and let [ticks] be the interval in ticks of
    the driver.  As long as the scheduler neither arms anew nor cancels:
    nothing is notified at the points where the interrupt could be taken
    before [ticks] have gone by; the first such point at or after that
    delivers the notification, the one call of [sched_timer_expiration]
    for the interval; and nothing is notified afterwards.  Whatever the
    events, the notifications never outnumber the intervals armed.  The
    interval asked for is less than one tick longer than [ticks]. *)
Theorem up_timer_start_notifies_once :
  forall (ts : timespec) m m',
    up_timer_start ts m = Returns OK m' ->
    (forall l1 : list event,
        forallb stays_armed l1 = true ->
        windows_before (start_ticks ts m) l1 = true ->
        notified (after_events l1 m') = notified m /\
        forall l2 : list event,
          start_ticks ts m <= ticks_elapsed l1 ->
          forallb stays_armed l2 = true ->
          notified (after_events (l1 ++ Interrupt :: l2) m') =
            S (notified m)) /\
    (forall l : list event,
        (notified (after_events l m')
         <= notified m + 1 + length (filter is_start l))%nat) /\
    (0 < Spec.alarm_resolution (oneshot (g_tickless m)) ->
     start_ticks ts m * (Spec.alarm_resolution (oneshot (g_tickless m)) * 1000)
       <= tv_sec ts * 1000000000 + tv_nsec ts
       < (start_ticks ts m + 1)
         * (Spec.alarm_resolution (oneshot (g_tickless m)) * 1000)).
Proof.
  intros ts m m' H.
  destruct (up_timer_start_arms ts m m' H) as (Harmed & Hout & Hn).
  split; [|split].
  - intros l1 Hl1 Hw1.
    assert (Hw : windows_before
                   (Spec.now (outside m) + start_ticks ts m
                    - Spec.now (outside m')) l1 = true).
    { rewrite Hout.
      replace (Spec.now (outside m) + start_ticks ts m - Spec.now (outside m))
        with (start_ticks ts m) by ring.
      exact Hw1. }
    destruct (armed_waits l1 m' _ _ _ Harmed Hl1 Hw) as (Ha1 & Hn1 & Hc1).
    split; [congruence|].
    intros l2 Hlate Hl2.
    rewrite after_events_app. cbn [after_events].
    assert (Hd : Spec.now (outside m) + start_ticks ts m
                 <= Spec.now (outside (after_events l1 m'))).
    { rewrite Hc1, Hout. lia. }
    destruct (expired_fires _ _ _ _ Ha1 Hd) as (Ha2 & Hn2).
    assert (Hl2' : forallb not_start l2 = true).
    { rewrite forallb_forall in *. intros e He. specialize (Hl2 e He).
      unfold stays_armed in Hl2. apply andb_prop in Hl2. apply Hl2. }
    destruct (idle_stays l2 _ Ha2 Hl2') as (_ & Hn3).
    congruence.
  - intros l. pose proof (at_most_once_per_start l m') as B.
    rewrite Harmed, Hn in B.
    destruct (Spec.alarm (oneshot (g_tickless (after_events l m')))); lia.
  - intros Hres. unfold start_ticks, Spec.ticks_of_timespec.
    unfold Spec.NSEC_PER_SEC, Spec.NSEC_PER_USEC.
    set (u := Spec.alarm_resolution (oneshot (g_tickless m)) * 1000).
    set (ns := tv_sec ts * 1000000000 + tv_nsec ts).
    assert (Hu : 0 < u) by (unfold u; lia).
    pose proof (Z.div_mod ns u ltac:(lia)) as E.
    pose proof (Z.mod_pos_bound ns u Hu) as B.
    nia.
Qed.


End Expiry.

(** ** The statements tried on the sample hardware *)

(** C8, as the specification has it, does not hold: were every status that
    reaches the caller of [up_timer_start] either success or one of two
    fault kinds, three drivers refusing with [EIO], [EBUSY] and [EINVAL]
    could not be told apart by the caller; they can, since each of the
    three raw codes comes back unchanged. *)
Lemma raw_driver_status_reaches_caller :
  ~ (exists hardware_fault busy_fault : Z,
        forall (P : platform) (m : system P) (ts : timespec),
          value_of (up_timer_start ts m) = Some OK \/
          value_of (up_timer_start ts m) = Some hardware_fault \/
          value_of (up_timer_start ts m) = Some busy_fault).
Proof.
  intros (hf & bf & H).
  pose proof (H _ (initialised 1000 (hw_refusing 5)) (mk_timespec 1 0)) as H5.
  pose proof (H _ (initialised 1000 (hw_refusing 16)) (mk_timespec 1 0)) as H16.
  pose proof (H _ (initialised 1000 (hw_refusing 22)) (mk_timespec 1 0)) as H22.
  cbn in H5, H16, H22. unfold OK in *.
  destruct H5 as [H5|[H5|H5]]; try discriminate H5;
    destruct H16 as [H16|[H16|H16]]; try discriminate H16;
    destruct H22 as [H22|[H22|H22]]; try discriminate H22;
    congruence.
Qed.

(** The three codes, as the caller sees them. *)
Example up_timer_start_returns_errno :
  value_of (up_timer_start (mk_timespec 1 0) (initialised 1000 (hw_refusing 5)))
    = Some (-5) /\
  value_of (up_timer_start (mk_timespec 1 0) (initialised 1000 (hw_refusing 16)))
    = Some (-16) /\
  value_of (up_timer_start (mk_timespec 1 0) (initialised 1000 (hw_refusing 22)))
    = Some (-22).
Proof. repeat split; reflexivity. Qed.

(** C2 at a board whose one-shot timer does not initialise: the system
    halts with [PANIC()] as the last call, the free-running timer not having
    been touched. *)
Lemma up_timer_initialize_panics_on_failure_witness :
  up_timer_initialize 0 (mk_timespec 0 0) (at_reset 2 5 1000 hw_no_alarm) =
  Halts (mk_system (P := spec_platform 2 5 1000)
                   (mk_tickless (P := spec_platform 2 5 1000)
                                (Spec.mk_oneshot 0 Spec.IDLE) (Spec.mk_freerun 0))
                   0 hw_no_alarm
                   [Call_PANIC; Call_stm32_oneshot_initialize 2 1000]).
Proof.
  destruct (up_timer_initialize_panics_on_failure
              (spec_platform 2 5 1000) 0 (mk_timespec 0 0)
              (at_reset 2 5 1000 hw_no_alarm) _ _ eq_refl) as [H _].
  rewrite H; [reflexivity|]. vm_compute. reflexivity.
Defined.

(** The same with the free-running timer as the one that fails. *)
Example up_timer_initialize_panics_on_counter :
  halted (up_timer_initialize 0 (mk_timespec 0 0) (at_reset 2 5 1000 hw_no_counter))
    = true /\
  calls (machine_of (up_timer_initialize 0 (mk_timespec 0 0)
                                         (at_reset 2 5 1000 hw_no_counter)))
    = [Call_PANIC; Call_stm32_freerun_initialize 5 1000;
       Call_stm32_oneshot_initialize 2 1000].
Proof. split; reflexivity. Qed.

(** C1 at a board on which both timers initialise: the log of
    [up_timer_initialize] holds a call that arms the alarm. *)
Lemma up_timer_initialize_arms_the_alarm_witness :
  exists l1 l2,
    calls (machine_of (up_timer_initialize 0 (mk_timespec 0 0)
                                           (at_reset 2 5 1000 hw_fresh))) =
      l1 ++ [Call_stm32_oneshot_start stm32_oneshot_handler_ptr NULL
               (mk_timespec 0 50000);
             Call_PROBE 3 true] ++ l2 ++
      [Call_hrt_init; Call_stm32_freerun_initialize 5 1000;
       Call_stm32_oneshot_initialize 2 1000] ++ [] /\
    (l2 = [] \/ l2 = [Call_sched_timer_expiration]).
Proof.
  refine (up_timer_initialize_arms_the_alarm
            (spec_platform 2 5 1000) 0 (mk_timespec 0 0)
            (at_reset 2 5 1000 hw_fresh) 0 0 _ _ eq_refl _ eq_refl _);
    vm_compute; discriminate.
Defined.

(** On that board, with a tick of a tenth of a second, the whole of
    [up_timer_initialize] runs to its end: it has armed the alarm 1500
    times, cancelled it 1200 times and let it expire, and notify the
    scheduler, 300 times; it returns with the alarm idle. *)
Example up_timer_initialize_sweeps :
  let run := up_timer_initialize 64 (mk_timespec 0 0)
                                 (at_reset 2 5 100000 hw_fresh) in
  returned run = true /\
  count_calls call_eqb_start (calls (machine_of run)) = 1500%nat /\
  count_calls call_eqb_cancel (calls (machine_of run)) = 1200%nat /\
  count_calls call_eqb_expiration (calls (machine_of run)) = 300%nat /\
  test_cnt (machine_of run) = 300 /\
  Spec.alarm (oneshot (g_tickless (machine_of run))) = Spec.IDLE.
Proof. vm_compute. repeat split; reflexivity. Qed.

(** C3 across a wrap-around of the 32-bit counter, with a tick of one
    millisecond. *)
Lemma up_timer_gettime_never_goes_back_witness :
  let l := [Gettime; Elapse 2; Gettime; Start (mk_timespec 0 5000000);
            Elapse 4; Interrupt; Gettime; Elapse 4294967296; Gettime;
            Cancel true; Gettime] in
  0 <= Spec.counter_resolution
         (freerun (g_tickless (initialised 1000 hw_near_wrap))) /\
  length (gettime_readings l (initialised 1000 hw_near_wrap)) = 5%nat /\
  StronglySorted timespec_le (gettime_readings l (initialised 1000 hw_near_wrap)) /\
  Forall nsec_in_range (gettime_readings l (initialised 1000 hw_near_wrap)).
Proof.
  intros l.
  assert (H : 0 <= Spec.counter_resolution
                     (freerun (g_tickless (initialised 1000 hw_near_wrap))))
    by (vm_compute; discriminate).
  split; [exact H|].
  exact (up_timer_gettime_never_goes_back 2 5 1000 l
           (initialised 1000 hw_near_wrap) H).
Defined.

(** The readings of that run: the register wraps between the second and
    the third, and once more, all the way round, before the fourth. *)
Example readings_across_wrap :
  gettime_readings
    [Gettime; Elapse 2; Gettime; Start (mk_timespec 0 5000000);
     Elapse 4; Interrupt; Gettime; Elapse 4294967296; Gettime;
     Cancel true; Gettime]
    (initialised 1000 hw_near_wrap) =
  [mk_timespec 4294967 293000000; mk_timespec 4294967 295000000;
   mk_timespec 4294967 299000000; mk_timespec 8589934 595000000;
   mk_timespec 8589934 595000000].
Proof. vm_compute. reflexivity. Qed.

(** C4 on an initialised system whose alarm was never armed. *)
Lemma up_timer_cancel_idle_is_ok_witness :
  Spec.alarm (oneshot (g_tickless (initialised 1000 hw_fresh))) = Spec.IDLE /\
  value_of (up_timer_cancel (Some (mk_timespec 7 7)) (initialised 1000 hw_fresh))
    = Some (OK, Some (mk_timespec 0 0)).
Proof.
  split; [reflexivity|].
  destruct (up_timer_cancel_idle_is_ok 2 5 1000 (Some (mk_timespec 7 7))
              (initialised 1000 hw_fresh) eq_refl) as [(m' & H & _) _].
  rewrite H. reflexivity.
Defined.

(** C7 on an initialised system whose alarm takes the deadline. *)
Lemma up_timer_start_takes_zero_witness :
  Spec.alarm_busy (outside (initialised 1000 hw_near_wrap)) = None /\
  value_of (up_timer_start (mk_timespec 0 0) (initialised 1000 hw_near_wrap))
    = Some OK.
Proof.
  split; [reflexivity|].
  destruct (up_timer_start_takes_zero 2 5 1000 (initialised 1000 hw_near_wrap))
    as [H _].
  destruct (H eq_refl) as (m' & E & _).
  rewrite E. reflexivity.
Defined.

(** C6 with a tick of one millisecond and an interval of five: a point
    where the interrupt could be taken after two ticks delivers nothing,
    the first one after five ticks delivers the notification, a later one
    nothing more. *)
Lemma up_timer_start_notifies_once_witness :
  let m := initialised 1000 hw_fresh in
  let m' := machine_of (up_timer_start (mk_timespec 0 5000000) m) in
  up_timer_start (mk_timespec 0 5000000) m = Returns OK m' /\
  start_ticks (mk_timespec 0 5000000) m = 5 /\
  notified (after_events [Elapse 2; Interrupt; Gettime; Elapse 2] m') = 0%nat /\
  notified (after_events ([Elapse 2; Interrupt; Gettime; Elapse 3] ++
                          Interrupt :: [Elapse 10; Interrupt; Gettime]) m')
    = 1%nat.
Proof.
  intros m m'.
  destruct (up_timer_start_notifies_once 2 5 1000 (mk_timespec 0 5000000)
              m m' eq_refl) as (H & _ & _).
  split; [reflexivity|]. split; [reflexivity|]. split.
  - destruct (H [Elapse 2; Interrupt; Gettime; Elapse 2] eq_refl eq_refl)
      as (H1 & _).
    exact H1.
  - destruct (H [Elapse 2; Interrupt; Gettime; Elapse 3] eq_refl eq_refl)
      as (_ & H2).
    refine (H2 [Elapse 10; Interrupt; Gettime] _ eq_refl).
    vm_compute. discriminate.
Defined.


(** The same interval cancelled two ticks after it was armed: three
    milliseconds remain, and nothing is notified, then or later. *)
Example up_timer_cancel_in_time :
  let m := after_events [Start (mk_timespec 0 5000000); Elapse 2]
                        (initialised 1000 hw_fresh) in
  value_of (up_timer_cancel (Some (mk_timespec 9 9)) m) =
    Some (OK, Some (mk_timespec 0 3000000)) /\
  notified (after_events [Cancel true; Elapse 100; Interrupt; Interrupt] m)
    = 0%nat.
Proof. vm_compute. split; reflexivity. Qed.

(** ** What [up_timer_initialize] keeps, whatever its outcome *)

Lemma count_calls_app (f : call -> bool) (l1 l2 : list call) :
  count_calls f (l1 ++ l2) = (count_calls f l1 + count_calls f l2)%nat.
Proof.
  induction l1 as [|c l1 IH]; [reflexivity|].
  cbn [app]. rewrite !count_calls_cons, IH. lia.
Qed.

Lemma wrap_int_range (z : Z) : - 2 ^ 31 <= wrap_int z < 2 ^ 31.
Proof.
  unfold wrap_int.
  pose proof (Z.mod_pos_bound (z + 2 ^ 31) (2 ^ 32) eq_refl). lia.
Qed.

Lemma wrap_int_add (a b : Z) : wrap_int (wrap_int a + b) = wrap_int (a + b).
Proof.
  unfold wrap_int. f_equal.
  replace ((a + 2 ^ 31) mod 2 ^ 32 - 2 ^ 31 + b + 2 ^ 31)
    with ((a + 2 ^ 31) mod 2 ^ 32 + b) by ring.
  rewrite Zplus_mod_idemp_l. f_equal. ring.
Qed.

(** An [int] incremented fewer than [2 ^ 32] times is not what it was. *)
Lemma wrap_int_shift_ne (c k : Z) : 0 < k < 2 ^ 32 -> wrap_int (c + k) <> c.
Proof.
  intros Hk H. unfold wrap_int in H.
  pose proof (Z.div_mod (c + k + 2 ^ 31) (2 ^ 32) ltac:(lia)) as E.
  pose proof (Z.mod_pos_bound (c + k + 2 ^ 31) (2 ^ 32) eq_refl) as B.
  nia.
Qed.

(** Incrementing an [int] [n] times adds [n] to it, modulo [2 ^ 32]. *)
Lemma bumped_wrap (n : nat) (c : Z) :
  - 2 ^ 31 <= c < 2 ^ 31 -> bumped n c = wrap_int (c + Z.of_nat n).
Proof.
  intros H. induction n as [|n IH].
  - cbn. rewrite Z.add_0_r, wrap_int_id; [reflexivity|exact H].
  - change (bumped (S n) c) with (wrap_int (bumped n c + 1)).
    rewrite IH, wrap_int_add. f_equal. lia.
Qed.

Section Keeping.

Variable P : platform.
Variable R : system P -> system P -> Prop.
Hypothesis R_refl : forall m, R m m.
Hypothesis R_trans : forall m1 m2 m3, R m1 m2 -> R m2 m3 -> R m1 m3.

Lemma keeps_ret (A : Type) (a : A) : keeps R (ret (P := P) a).
Proof. intros m. apply R_refl. Qed.

Lemma keeps_bind (A B : Type) (x : M P A) (f : A -> M P B) :
  keeps R x -> (forall a, keeps R (f a)) -> keeps R (bind x f).
Proof.
  intros Hx Hf m. specialize (Hx m). unfold bind.
  destruct (x m) as [a m'|m'|m']; cbn in *; [|exact Hx|exact Hx].
  eapply R_trans; [exact Hx|apply Hf].
Qed.

Lemma keeps_if (A : Type) (b : bool) (x y : M P A) :
  keeps R x -> keeps R y -> keeps R (if b then x else y).
Proof. destruct b; auto. Qed.

Variable good : timespec -> Prop.
Hypothesis K_irq : keeps R (irq_window (P := P)).
Hypothesis K_probe : forall n b, keeps R (do_PROBE P n b).
Hypothesis K_hrt : keeps R (do_hrt_absolute_time P).
Hypothesis K_cancel : forall p, keeps R (up_timer_cancel (P := P) p).
Hypothesis K_start : forall ts, good ts -> keeps R (up_timer_start (P := P) ts).
Hypothesis good_sweep :
  forall s i, 0 <= s < 5 -> 50 <= i < 15000 -> (i - 50) mod 100 = 0 ->
              good (mk_timespec s (i * 1000)).

Lemma keeps_read_test_cnt : keeps R (read_test_cnt (P := P)).
Proof.
  unfold read_test_cnt. apply keeps_bind; [exact K_irq|].
  intros _ m. apply R_refl.
Qed.

Lemma keeps_cancel_and_compare v : keeps R (cancel_and_compare P v).
Proof.
  unfold cancel_and_compare.
  apply keeps_bind; [exact K_irq|]. intros _.
  apply keeps_bind; [apply K_cancel|]. intros r.
  apply keeps_bind; [exact K_irq|]. intros _.
  apply keeps_ret.
Qed.

Lemma keeps_busy_wait spin : forall cnt v, keeps R (busy_wait P spin cnt v).
Proof.
  induction spin as [|spin IH]; intros cnt v.
  - intros m. apply R_refl.
  - cbn [busy_wait]. apply keeps_bind; [apply keeps_read_test_cnt|].
    intros c. apply keeps_if; [|apply keeps_ret].
    apply keeps_bind; [exact K_irq|]. intros _.
    apply keeps_bind; [exact K_hrt|].
    intros t. apply keeps_if; [apply keeps_cancel_and_compare|apply IH].
Qed.

Lemma keeps_sweep_body spin s i v :
  good (mk_timespec s (i * 1000)) -> keeps R (sweep_body P spin s i v).
Proof.
  intros Hg. unfold sweep_body.
  apply keeps_bind; [apply keeps_read_test_cnt|]. intros cnt.
  apply keeps_bind; [apply K_probe|]. intros _.
  apply keeps_bind; [apply K_start, Hg|]. intros _.
  apply keeps_bind; [exact K_irq|]. intros _.
  apply keeps_bind; [exact K_hrt|]. intros t.
  apply keeps_bind; [apply keeps_busy_wait|]. intros v2.
  apply keeps_bind; [exact K_irq|]. intros _.
  apply keeps_bind; [apply K_probe|]. intros _.
  apply keeps_ret.
Qed.

Lemma keeps_while_j (body : locals -> M P locals) :
  (forall v, keeps R (body v)) -> forall j v, keeps R (while_j P j body v).
Proof.
  intros Hb. induction j as [|j IH]; intros v; cbn [while_j].
  - apply keeps_ret.
  - apply keeps_bind; [apply Hb|]. intros v'. apply IH.
Qed.

(** The loop variable of a [for] loop that starts at [lo] stays below the
    bound and in step with [lo]. *)
Lemma keeps_for_loop (body : Z -> locals -> M P locals) (lo hi step : Z) :
  0 < step ->
  (forall x v, lo <= x < hi -> (x - lo) mod step = 0 -> keeps R (body x v)) ->
  forall n x v,
    lo <= x -> (x - lo) mod step = 0 ->
    keeps R (for_loop P n x hi step body v).
Proof.
  intros Hstep Hb. induction n as [|n IH]; intros x v Hlo Hmod; cbn [for_loop].
  - apply keeps_ret.
  - destruct (x <? hi) eqn:E; [|apply keeps_ret].
    apply Z.ltb_lt in E.
    apply keeps_bind; [apply Hb; [lia|exact Hmod]|].
    intros v'. apply IH; [lia|].
    replace (x + step - lo) with (x - lo + 1 * step) by ring.
    rewrite Z_mod_plus_full. exact Hmod.
Qed.

Lemma keeps_sweep spin stack : keeps R (sweep P spin stack).
Proof.
  unfold sweep. apply keeps_bind; [|intros v; apply keeps_ret].
  apply keeps_for_loop with (lo := 0); [lia| |lia|reflexivity].
  intros s v Hs _.
  apply keeps_for_loop with (lo := 50); [lia| |lia|reflexivity].
  intros i v0 Hi Hmod.
  apply keeps_while_j. intros v1.
  apply keeps_sweep_body, good_sweep; assumption.
Qed.

Hypothesis K_oneshot_initialize :
  forall a b, keeps R (call_stm32_oneshot_initialize P a b).
Hypothesis K_freerun_initialize :
  forall a b, keeps R (call_stm32_freerun_initialize P a b).
Hypothesis K_hrt_init : keeps R (do_hrt_init P).
Hypothesis K_panic : keeps R (do_PANIC P (A := unit)).

Lemma keeps_up_timer_initialize spin stack :
  keeps R (up_timer_initialize (P := P) spin stack).
Proof.
  unfold up_timer_initialize.
  apply keeps_bind; [apply K_oneshot_initialize|]. intros r1.
  apply keeps_bind; [apply keeps_if; [exact K_panic|apply keeps_ret]|].
  intros _.
  apply keeps_bind; [apply K_freerun_initialize|]. intros r2.
  apply keeps_bind; [apply keeps_if; [exact K_panic|apply keeps_ret]|].
  intros _.
  apply keeps_bind; [exact K_hrt_init|]. intros _.
  apply keeps_sweep.
Qed.

End Keeping.

Ltac split_pairs :=
  repeat match goal with
         | |- context [match ?e with pair _ _ => _ end] => destruct e
         end.

Section Counting.

Variable P : platform.
Implicit Types m : system P.

Lemma counted_refl m : counted m m.
Proof. exists []. split; reflexivity. Qed.

Lemma counted_trans m1 m2 m3 : counted m1 m2 -> counted m2 m3 -> counted m1 m3.
Proof.
  intros (l1 & H1 & T1) (l2 & H2 & T2). exists (l2 ++ l1). split.
  - rewrite H2, H1. apply app_assoc.
  - rewrite T2, T1, count_calls_app. unfold bumped.
    symmetry. apply Nat.iter_add.
Qed.

(** A program that returns after logging one call, which is not a
    notification, and leaves [test_cnt] alone. *)
Lemma counted_one_call (A : Type) (x : M P A) (c : call) :
  call_eqb_expiration c = false ->
  (forall m, calls (machine_of (x m)) = c :: calls m /\
             test_cnt (machine_of (x m)) = test_cnt m) ->
  keeps counted x.
Proof.
  intros Hc H m. destruct (H m) as [Hl Ht]. exists [c]. split; [exact Hl|].
  rewrite count_calls_cons, Hc. exact Ht.
Qed.

Lemma counted_irq_window : keeps counted (irq_window (P := P)).
Proof.
  intros m. unfold irq_window.
  destruct (oneshot_irq P (oneshot (g_tickless m)) (outside m)) as [[o w]|].
  - exists [Call_sched_timer_expiration]. split; reflexivity.
  - apply counted_refl.
Qed.

Lemma counted_up_timer_initialize spin stack :
  keeps counted (up_timer_initialize (P := P) spin stack).
Proof.
  apply keeps_up_timer_initialize with (good := fun _ => True);
    try exact counted_refl; try exact counted_trans;
    try exact counted_irq_window; try tauto; intros.
  - eapply counted_one_call with (c := Call_PROBE _ _); [reflexivity|].
    intros m. split; reflexivity.
  - eapply counted_one_call with (c := Call_hrt_absolute_time); [reflexivity|].
    intros m. unfold do_hrt_absolute_time. split_pairs. split; reflexivity.
  - eapply counted_one_call with (c := Call_stm32_oneshot_cancel); [reflexivity|].
    intros m. unfold up_timer_cancel. split_pairs. split; reflexivity.
  - eapply counted_one_call with (c := Call_stm32_oneshot_start _ _ _);
      [reflexivity|].
    intros m. unfold up_timer_start. split_pairs. split; reflexivity.
  - eapply counted_one_call with (c := Call_stm32_oneshot_initialize _ _);
      [reflexivity|].
    intros m. unfold call_stm32_oneshot_initialize. split_pairs.
    split; reflexivity.
  - eapply counted_one_call with (c := Call_stm32_freerun_initialize _ _);
      [reflexivity|].
    intros m. unfold call_stm32_freerun_initialize. split_pairs.
    split; reflexivity.
  - eapply counted_one_call with (c := Call_hrt_init); [reflexivity|].
    intros m. split; reflexivity.
  - eapply counted_one_call with (c := Call_PANIC); [reflexivity|].
    intros m. split; reflexivity.
Qed.

(** X4.  However [up_timer_initialize] ends — returning, in [PANIC()], or still
    waiting — and whatever the drivers and the interrupt do, [test_cnt]
    has been incremented exactly once for each call of
    [sched_timer_expiration] made since the function was entered: it is
    its first value plus the number of those calls, as an [int], and it is
    unchanged when there was none. *)
Theorem up_timer_initialize_counts_notifications :
  forall (spin : nat) (stack : timespec) m,
    - 2 ^ 31 <= test_cnt m < 2 ^ 31 ->
    exists l,
      calls (machine_of (up_timer_initialize spin stack m)) = l ++ calls m /\
      test_cnt (machine_of (up_timer_initialize spin stack m)) =
        wrap_int (test_cnt m + Z.of_nat (count_calls call_eqb_expiration l)) /\
      (count_calls call_eqb_expiration l = 0%nat ->
       test_cnt (machine_of (up_timer_initialize spin stack m)) = test_cnt m).
Proof.
  intros spin stack m Hint.
  destruct (counted_up_timer_initialize spin stack m) as (l & Hl & Ht).
  exists l. split; [exact Hl|]. rewrite Ht. split.
  - apply bumped_wrap, Hint.
  - intros H0. rewrite H0. reflexivity.
Qed.

Lemma only_adds_refl ok m : only_adds ok m m.
Proof. exists []. split; reflexivity. Qed.

Lemma only_adds_trans ok m1 m2 m3 :
  only_adds ok m1 m2 -> only_adds ok m2 m3 -> only_adds ok m1 m3.
Proof.
  intros (l1 & H1 & T1) (l2 & H2 & T2). exists (l2 ++ l1). split.
  - rewrite H2, H1. apply app_assoc.
  - rewrite forallb_app, T1, T2. reflexivity.
Qed.

Lemma only_adds_one_call ok (A : Type) (x : M P A) (c : call) :
  ok c = true ->
  (forall m, calls (machine_of (x m)) = c :: calls m) ->
  keeps (only_adds ok) x.
Proof.
  intros Hc H m. exists [c]. split; [apply H|].
  cbn. rewrite Hc. reflexivity.
Qed.

Lemma sweep_interval_of_loop (s i : Z) :
  0 <= s < 5 -> 50 <= i < 15000 -> (i - 50) mod 100 = 0 ->
  sweep_interval (mk_timespec s (i * 1000)) = true.
Proof.
  intros Hs Hi Hmod. unfold sweep_interval. cbn [tv_sec tv_nsec].
  pose proof (Z.div_mod (i - 50) 100 ltac:(lia)) as E. rewrite Hmod in E.
  set (q := (i - 50) / 100) in *.
  assert (Hq : 0 <= q <= 149) by lia.
  replace (i * 1000) with (50000 + q * 100000) by lia.
  rewrite Z_mod_plus_full.
  change (50000 mod 100000) with 50000.
  repeat (apply andb_true_intro; split);
    try apply Z.leb_le; try apply Z.eqb_eq; lia.
Qed.

Lemma only_sweep_calls spin stack :
  keeps (only_adds sweep_call) (up_timer_initialize (P := P) spin stack).
Proof.
  apply keeps_up_timer_initialize
    with (good := fun ts => sweep_interval ts = true);
    try apply only_adds_refl; try apply only_adds_trans; intros.
  - intros m. unfold irq_window.
    destruct (oneshot_irq P (oneshot (g_tickless m)) (outside m)) as [[o w]|].
    + exists [Call_sched_timer_expiration]. split; reflexivity.
    + apply only_adds_refl.
  - eapply only_adds_one_call with (c := Call_PROBE _ _); [reflexivity|].
    intros m. reflexivity.
  - eapply only_adds_one_call with (c := Call_hrt_absolute_time); [reflexivity|].
    intros m. unfold do_hrt_absolute_time. split_pairs. reflexivity.
  - eapply only_adds_one_call with (c := Call_stm32_oneshot_cancel);
      [reflexivity|].
    intros m. unfold up_timer_cancel. split_pairs. reflexivity.
  - eapply only_adds_one_call
      with (c := Call_stm32_oneshot_start stm32_oneshot_handler_ptr NULL ts).
    + cbn. assumption.
    + intros m. unfold up_timer_start. split_pairs. reflexivity.
  - apply sweep_interval_of_loop; assumption.
  - eapply only_adds_one_call with (c := Call_stm32_oneshot_initialize _ _);
      [reflexivity|].
    intros m. unfold call_stm32_oneshot_initialize. split_pairs. reflexivity.
  - eapply only_adds_one_call with (c := Call_stm32_freerun_initialize _ _);
      [reflexivity|].
    intros m. unfold call_stm32_freerun_initialize. split_pairs. reflexivity.
  - eapply only_adds_one_call with (c := Call_hrt_init); [reflexivity|].
    intros m. reflexivity.
  - eapply only_adds_one_call with (c := Call_PANIC); [reflexivity|].
    intros m. reflexivity.
Qed.

(** X3.  Every interval that [up_timer_initialize] hands to
    [stm32_oneshot_start], in any run and however the run ends, is well
    formed and short: 0 to 4 seconds, and a number of nanoseconds that is
    one of 50000, 150000, ..., 14950000; the callback argument is always
    null. *)
Theorem up_timer_initialize_arms_short_intervals :
  forall (spin : nat) (stack : timespec) m,
    exists l,
      calls (machine_of (up_timer_initialize spin stack m)) = l ++ calls m /\
      forall h arg ts,
        In (Call_stm32_oneshot_start h arg ts) l ->
        arg = NULL /\ 0 <= tv_sec ts <= 4 /\
        50000 <= tv_nsec ts <= 14950000 /\ tv_nsec ts mod 100000 = 50000.
Proof.
  intros spin stack m.
  destruct (only_sweep_calls spin stack m) as (l & Hl & Hok).
  exists l. split; [exact Hl|].
  intros h arg ts Hin. rewrite forallb_forall in Hok.
  specialize (Hok _ Hin). cbn in Hok. unfold sweep_interval in Hok.
  repeat match goal with
         | H : _ && _ = true |- _ => apply andb_prop in H; destruct H
         | H : (_ <=? _) = true |- _ => apply Z.leb_le in H
         | H : (_ =? _) = true |- _ => apply Z.eqb_eq in H
         end.
  repeat split; assumption.
Qed.

End Counting.

(** ** When [up_timer_initialize] stops in [PANIC()] *)

Section NeverHalting.

Variable P : platform.
Implicit Types m : system P.

Lemma never_halts_returned (A : Type) (x : M P A) :
  (forall m, returned (x m) = true) -> never_halts x.
Proof. intros H m. specialize (H m). destruct (x m); [reflexivity|discriminate..]. Qed.

Lemma never_halts_bind (A B : Type) (x : M P A) (f : A -> M P B) :
  never_halts x -> (forall a, never_halts (f a)) -> never_halts (bind x f).
Proof.
  intros Hx Hf m. specialize (Hx m). unfold bind.
  destruct (x m) as [a m'|m'|m']; [apply Hf|discriminate|reflexivity].
Qed.

Lemma never_halts_if (A : Type) (b : bool) (x y : M P A) :
  never_halts x -> never_halts y -> never_halts (if b then x else y).
Proof. destruct b; auto. Qed.

Lemma never_halts_ret (A : Type) (a : A) : never_halts (ret (P := P) a).
Proof. intros m. reflexivity. Qed.

Lemma irq_window_returned m : returned (irq_window m) = true.
Proof.
  unfold irq_window.
  destruct (oneshot_irq P (oneshot (g_tickless m)) (outside m)) as [[o w]|];
    reflexivity.
Qed.

Lemma never_halts_irq_window : never_halts (irq_window (P := P)).
Proof. apply never_halts_returned, irq_window_returned. Qed.

Lemma never_halts_read_test_cnt : never_halts (read_test_cnt (P := P)).
Proof.
  unfold read_test_cnt. apply never_halts_bind.
  - apply never_halts_irq_window.
  - intros _ m. reflexivity.
Qed.

Lemma never_halts_do_hrt_absolute_time : never_halts (do_hrt_absolute_time P).
Proof. intros m. unfold do_hrt_absolute_time. split_pairs. reflexivity. Qed.

Lemma never_halts_up_timer_cancel p : never_halts (up_timer_cancel (P := P) p).
Proof. intros m. unfold up_timer_cancel. split_pairs. reflexivity. Qed.

Lemma never_halts_up_timer_start ts : never_halts (up_timer_start (P := P) ts).
Proof. intros m. unfold up_timer_start. split_pairs. reflexivity. Qed.

Lemma never_halts_busy_wait spin :
  forall cnt v, never_halts (busy_wait P spin cnt v).
Proof.
  induction spin as [|spin IH]; intros cnt v.
  - intros m. reflexivity.
  - cbn [busy_wait]. apply never_halts_bind; [apply never_halts_read_test_cnt|].
    intros c. apply never_halts_if; [|apply never_halts_ret].
    apply never_halts_bind; [apply never_halts_irq_window|]. intros _.
    apply never_halts_bind; [apply never_halts_do_hrt_absolute_time|].
    intros t. apply never_halts_if; [|apply IH].
    unfold cancel_and_compare.
    apply never_halts_bind; [apply never_halts_irq_window|]. intros _.
    apply never_halts_bind; [apply never_halts_up_timer_cancel|]. intros r.
    apply never_halts_bind; [apply never_halts_irq_window|]. intros _.
    apply never_halts_ret.
Qed.

Lemma never_halts_sweep_body spin s i v :
  never_halts (sweep_body P spin s i v).
Proof.
  unfold sweep_body.
  apply never_halts_bind; [apply never_halts_read_test_cnt|]. intros cnt.
  apply never_halts_bind; [intros m; reflexivity|]. intros _.
  apply never_halts_bind; [apply never_halts_up_timer_start|]. intros _.
  apply never_halts_bind; [apply never_halts_irq_window|]. intros _.
  apply never_halts_bind; [apply never_halts_do_hrt_absolute_time|]. intros t.
  apply never_halts_bind; [apply never_halts_busy_wait|]. intros v2.
  apply never_halts_bind; [apply never_halts_irq_window|]. intros _.
  apply never_halts_bind; [intros m; reflexivity|]. intros _.
  apply never_halts_ret.
Qed.

Lemma never_halts_while_j (body : locals -> M P locals) :
  (forall v, never_halts (body v)) ->
  forall j v, never_halts (while_j P j body v).
Proof.
  intros Hb. induction j as [|j IH]; intros v; cbn [while_j].
  - apply never_halts_ret.
  - apply never_halts_bind; [apply Hb|]. intros v'. apply IH.
Qed.

Lemma never_halts_for_loop (body : Z -> locals -> M P locals) hi step :
  (forall x v, never_halts (body x v)) ->
  forall n x v, never_halts (for_loop P n x hi step body v).
Proof.
  intros Hb. induction n as [|n IH]; intros x v; cbn [for_loop].
  - apply never_halts_ret.
  - apply never_halts_if; [|apply never_halts_ret].
    apply never_halts_bind; [apply Hb|]. intros v'. apply IH.
Qed.

Lemma never_halts_sweep spin stack : never_halts (sweep P spin stack).
Proof.
  unfold sweep. apply never_halts_bind; [|intros v; apply never_halts_ret].
  apply never_halts_for_loop. intros s v.
  apply never_halts_for_loop. intros i v0.
  apply never_halts_while_j. intros v1. apply never_halts_sweep_body.
Qed.

(** X1.  [up_timer_initialize] stops in [PANIC()] in no other case than a
    negative status of one of the two initialisations: once both timers
    are initialised, nothing in the rest of the function — the diagnostic
    loop included, whatever the drivers return in it — halts the system. *)
Theorem up_timer_initialize_halts_only_on_failure :
  forall (spin : nat) (stack : timespec) m (r1 r2 : Z) (m1 m2 : system P),
    call_stm32_oneshot_initialize P (CONFIG_STM32_TICKLESS_ONESHOT P)
                                  (CONFIG_USEC_PER_TICK P) m
      = Returns r1 m1 ->
    call_stm32_freerun_initialize P (CONFIG_STM32_TICKLESS_FREERUN P)
                                  (CONFIG_USEC_PER_TICK P) m1
      = Returns r2 m2 ->
    (halted (up_timer_initialize spin stack m) = true <-> r1 < 0 \/ r2 < 0).
Proof.
  intros spin stack m r1 r2 m1 m2 H1 H2.
  unfold up_timer_initialize. rewrite (bind_returns P _ _ _ _ _ _ _ H1).
  destruct (r1 <? 0) eqn:E1.
  - apply Z.ltb_lt in E1. split; [intros _; now left|intros _; reflexivity].
  - apply Z.ltb_ge in E1.
    rewrite (bind_returns P _ _ (ret tt) _ _ _ _ eq_refl).
    rewrite (bind_returns P _ _ _ _ _ _ _ H2).
    destruct (r2 <? 0) eqn:E2.
    + apply Z.ltb_lt in E2. split; [intros _; now right|intros _; reflexivity].
    + apply Z.ltb_ge in E2.
      rewrite (bind_returns P _ _ (ret tt) _ _ _ _ eq_refl).
      assert (Hrest : never_halts
                        (bind (do_hrt_init P) (fun _ => sweep P spin stack))).
      { apply never_halts_bind; [intros m0; reflexivity|].
        intros u. apply never_halts_sweep. }
      rewrite (Hrest m2). split; [discriminate|lia].
Qed.

End NeverHalting.

(** ** How often [up_timer_initialize] calls what *)

Section Adding.

Variable P : platform.
Variable f : call -> bool.
Hypothesis f_expiration : f Call_sched_timer_expiration = false.
Hypothesis f_hrt_absolute_time : f Call_hrt_absolute_time = false.
Variable per_start : nat.
Hypothesis f_start :
  forall h arg ts, weight f (Call_stm32_oneshot_start h arg ts) = per_start.

Implicit Types m : system P.

Lemma bind_inversion (A B : Type) (x : M P A) (g : A -> M P B) m b m' :
  bind x g m = Returns b m' ->
  exists a m1, x m = Returns a m1 /\ g a m1 = Returns b m'.
Proof.
  unfold bind. destruct (x m) as [a m1|m1|m1]; [|discriminate..].
  intros H. exists a, m1. split; [reflexivity|exact H].
Qed.

Lemma adds_ret (A : Type) (a : A) : adds f 0 0 (ret (P := P) a).
Proof. intros m a' m' H. injection H as _ <-. lia. Qed.

Lemma adds_bind (A B : Type) (x : M P A) (g : A -> M P B) lo1 hi1 lo2 hi2 :
  adds f lo1 hi1 x -> (forall a, adds f lo2 hi2 (g a)) ->
  adds f (lo1 + lo2) (hi1 + hi2) (bind x g).
Proof.
  intros Hx Hg m b m' H.
  destruct (bind_inversion _ _ _ _ _ _ _ H) as (a & m1 & E1 & E2).
  specialize (Hx _ _ _ E1). specialize (Hg _ _ _ _ E2). lia.
Qed.

Lemma adds_weaken (A : Type) (x : M P A) lo hi lo' hi' :
  adds f lo hi x -> (lo' <= lo)%nat -> (hi <= hi')%nat -> adds f lo' hi' x.
Proof. intros Hx Hlo Hhi m a m' H. specialize (Hx _ _ _ H). lia. Qed.

Lemma adds_if (A : Type) (b : bool) (x y : M P A) lo hi :
  adds f lo hi x -> adds f lo hi y -> adds f lo hi (if b then x else y).
Proof. destruct b; auto. Qed.

Lemma adds_one_call (A : Type) (x : M P A) (c : call) :
  (forall m, calls (machine_of (x m)) = c :: calls m) ->
  adds f (weight f c) (weight f c) x.
Proof.
  intros Hx m a m' H. specialize (Hx m). rewrite H in Hx. cbn in Hx.
  rewrite Hx, count_calls_cons. unfold weight. destruct (f c); lia.
Qed.

Lemma adds_irq_window : adds f 0 0 (irq_window (P := P)).
Proof.
  intros m a m'. unfold irq_window, stm32_oneshot_handler.
  destruct (oneshot_irq P (oneshot (g_tickless m)) (outside m)) as [[o w]|].
  - intros H. inversion H; subst; clear H.
    cbn [calls set_outside record set_test_cnt set_oneshot].
    rewrite count_calls_cons, f_expiration. lia.
  - intros H. inversion H; subst; clear H. lia.
Qed.

Lemma adds_read_test_cnt : adds f 0 0 (read_test_cnt (P := P)).
Proof.
  unfold read_test_cnt. change 0%nat with (0 + 0)%nat.
  apply adds_bind; [apply adds_irq_window|].
  intros _ m a m' H. injection H as _ <-. lia.
Qed.

Lemma adds_do_hrt_absolute_time : adds f 0 0 (do_hrt_absolute_time P).
Proof.
  eapply adds_weaken; [apply adds_one_call with (c := Call_hrt_absolute_time)| |].
  - intros m. unfold do_hrt_absolute_time. split_pairs. reflexivity.
  - lia.
  - unfold weight. rewrite f_hrt_absolute_time. lia.
Qed.

Lemma adds_up_timer_cancel p :
  adds f (weight f Call_stm32_oneshot_cancel)
       (weight f Call_stm32_oneshot_cancel) (up_timer_cancel (P := P) p).
Proof.
  apply adds_one_call. intros m. unfold up_timer_cancel. split_pairs.
  reflexivity.
Qed.

Lemma adds_up_timer_start ts :
  adds f per_start per_start (up_timer_start (P := P) ts).
Proof.
  rewrite <- (f_start stm32_oneshot_handler_ptr NULL ts).
  apply adds_one_call. intros m. unfold up_timer_start. split_pairs.
  reflexivity.
Qed.

Lemma adds_busy_wait spin :
  forall cnt v,
    adds f 0 (weight f Call_stm32_oneshot_cancel) (busy_wait P spin cnt v).
Proof.
  induction spin as [|spin IH]; intros cnt v.
  - intros m a m' H. discriminate H.
  - cbn [busy_wait].
    change 0%nat with (0 + 0)%nat at 1.
    change (weight f Call_stm32_oneshot_cancel)
      with (0 + weight f Call_stm32_oneshot_cancel)%nat.
    apply adds_bind; [apply adds_read_test_cnt|].
    intros c. apply adds_if;
      [|eapply adds_weaken; [apply adds_ret|lia|lia]].
    change 0%nat with (0 + (0 + 0))%nat at 1.
    change (weight f Call_stm32_oneshot_cancel)
      with (0 + (0 + weight f Call_stm32_oneshot_cancel))%nat.
    apply adds_bind; [apply adds_irq_window|]. intros _.
    apply adds_bind; [apply adds_do_hrt_absolute_time|].
    intros t. apply adds_if; [|apply IH].
    unfold cancel_and_compare.
    eapply adds_weaken;
      [apply adds_bind;
         [apply adds_irq_window
         |intros _; apply adds_bind;
            [apply adds_up_timer_cancel
            |intros r; apply adds_bind;
               [apply adds_irq_window|intros _; apply adds_ret]]]
      |lia|lia].
Qed.

Lemma adds_sweep_body spin s i v :
  adds f (weight f (Call_PROBE 3 true) + per_start + weight f (Call_PROBE 3 false))
       (weight f (Call_PROBE 3 true) + per_start + weight f (Call_PROBE 3 false)
        + weight f Call_stm32_oneshot_cancel)
       (sweep_body P spin s i v).
Proof.
  unfold sweep_body.
  eapply adds_weaken.
  - apply adds_bind; [apply adds_read_test_cnt|]. intros cnt.
    apply adds_bind;
      [apply adds_one_call with (c := Call_PROBE 3 true); intros m; reflexivity|].
    intros _.
    apply adds_bind; [apply adds_up_timer_start|]. intros _.
    apply adds_bind; [apply adds_irq_window|]. intros _.
    apply adds_bind; [apply adds_do_hrt_absolute_time|]. intros t.
    apply adds_bind; [apply adds_busy_wait|]. intros v2.
    apply adds_bind; [apply adds_irq_window|]. intros _.
    apply adds_bind;
      [apply adds_one_call with (c := Call_PROBE 3 false); intros m; reflexivity|].
    intros _. apply adds_ret.
  - lia.
  - lia.
Qed.

Lemma adds_while_j (body : locals -> M P locals) lo hi :
  (forall v, adds f lo hi (body v)) ->
  forall j v, adds f (j * lo) (j * hi) (while_j P j body v).
Proof.
  intros Hb. induction j as [|j IH]; intros v; cbn [while_j].
  - apply adds_ret.
  - cbn [Nat.mul]. apply adds_bind; [apply Hb|]. intros v'. apply IH.
Qed.

Lemma adds_for_loop (body : Z -> locals -> M P locals) hi step lo up :
  (forall x v, adds f lo up (body x v)) ->
  forall n x v,
    adds f (rounds n x hi step * lo) (rounds n x hi step * up)
         (for_loop P n x hi step body v).
Proof.
  intros Hb. induction n as [|n IH]; intros x v; cbn [for_loop rounds].
  - apply adds_ret.
  - destruct (x <? hi); [|apply adds_ret].
    cbn [Nat.mul]. apply adds_bind; [apply Hb|]. intros v'. apply IH.
Qed.

Lemma adds_sweep spin stack :
  adds f
       (1500 * (weight f (Call_PROBE 3 true) + per_start
                + weight f (Call_PROBE 3 false)))
       (1500 * (weight f (Call_PROBE 3 true) + per_start
                + weight f (Call_PROBE 3 false)
                + weight f Call_stm32_oneshot_cancel))
       (sweep P spin stack).
Proof.
  unfold sweep.
  eapply adds_weaken.
  - apply adds_bind; [|intros v; apply adds_ret].
    apply adds_for_loop. intros s v.
    apply adds_for_loop. intros i v0.
    apply adds_while_j. intros v1. apply adds_sweep_body.
  - replace (rounds 6 0 5 1) with 5%nat by reflexivity.
    replace (rounds 151 50 15000 100) with 150%nat by (vm_compute; reflexivity).
    lia.
  - replace (rounds 6 0 5 1) with 5%nat by reflexivity.
    replace (rounds 151 50 15000 100) with 150%nat by (vm_compute; reflexivity).
    lia.
Qed.

Lemma adds_up_timer_initialize spin stack :
  adds f
       (weight f (Call_stm32_oneshot_initialize
                    (CONFIG_STM32_TICKLESS_ONESHOT P) (CONFIG_USEC_PER_TICK P))
        + weight f (Call_stm32_freerun_initialize
                      (CONFIG_STM32_TICKLESS_FREERUN P) (CONFIG_USEC_PER_TICK P))
        + weight f Call_hrt_init
        + 1500 * (weight f (Call_PROBE 3 true) + per_start
                  + weight f (Call_PROBE 3 false)))
       (weight f (Call_stm32_oneshot_initialize
                    (CONFIG_STM32_TICKLESS_ONESHOT P) (CONFIG_USEC_PER_TICK P))
        + weight f (Call_stm32_freerun_initialize
                      (CONFIG_STM32_TICKLESS_FREERUN P) (CONFIG_USEC_PER_TICK P))
        + weight f Call_hrt_init
        + 1500 * (weight f (Call_PROBE 3 true) + per_start
                  + weight f (Call_PROBE 3 false)
                  + weight f Call_stm32_oneshot_cancel))
       (up_timer_initialize (P := P) spin stack).
Proof.
  assert (Hpanic : adds f 0 0 (do_PANIC P (A := unit)))
    by (intros m a m' H; discriminate H).
  unfold up_timer_initialize.
  eapply adds_weaken.
  - apply adds_bind;
      [apply adds_one_call
         with (c := Call_stm32_oneshot_initialize
                      (CONFIG_STM32_TICKLESS_ONESHOT P) (CONFIG_USEC_PER_TICK P));
       intros m; unfold call_stm32_oneshot_initialize; split_pairs; reflexivity|].
    intros r1.
    apply adds_bind; [apply adds_if; [exact Hpanic|apply adds_ret]|]. intros _.
    apply adds_bind;
      [apply adds_one_call
         with (c := Call_stm32_freerun_initialize
                      (CONFIG_STM32_TICKLESS_FREERUN P) (CONFIG_USEC_PER_TICK P));
       intros m; unfold call_stm32_freerun_initialize; split_pairs; reflexivity|].
    intros r2.
    apply adds_bind; [apply adds_if; [exact Hpanic|apply adds_ret]|]. intros _.
    apply adds_bind;
      [apply adds_one_call with (c := Call_hrt_init); intros m; reflexivity|].
    intros _. apply adds_sweep.
  - lia.
  - lia.
Qed.

End Adding.

(** X2.  Whenever [up_timer_initialize] returns, on whatever platform, its
    diagnostic loop has gone through all of its 5 x 150 x 2 rounds: it has
    armed the alarm exactly 1500 times, raised and lowered the probe 1500
    times each, cancelled the alarm at most 1500 times, started the
    high-resolution clock once and never called [PANIC()]. *)
Theorem up_timer_initialize_call_counts :
  forall (P : platform) (spin : nat) (stack : timespec)
         (m m' : system P) (u : unit),
    up_timer_initialize spin stack m = Returns u m' ->
    count_calls call_eqb_start (calls m') =
      (count_calls call_eqb_start (calls m) + 1500)%nat /\
    count_calls (call_eqb_probe true) (calls m') =
      (count_calls (call_eqb_probe true) (calls m) + 1500)%nat /\
    count_calls (call_eqb_probe false) (calls m') =
      (count_calls (call_eqb_probe false) (calls m) + 1500)%nat /\
    (count_calls call_eqb_cancel (calls m) <=
       count_calls call_eqb_cancel (calls m') <=
       count_calls call_eqb_cancel (calls m) + 1500)%nat /\
    count_calls call_eqb_hrt_init (calls m') =
      S (count_calls call_eqb_hrt_init (calls m)) /\
    count_calls call_eqb_panic (calls m') =
      count_calls call_eqb_panic (calls m).
Proof.
  intros P spin stack m m' u H.
  pose proof (adds_up_timer_initialize P call_eqb_start eq_refl eq_refl 1
                (fun _ _ _ => eq_refl) spin stack m u m' H) as H1.
  pose proof (adds_up_timer_initialize P (call_eqb_probe true) eq_refl eq_refl 0
                (fun _ _ _ => eq_refl) spin stack m u m' H) as H2.
  pose proof (adds_up_timer_initialize P (call_eqb_probe false) eq_refl eq_refl 0
                (fun _ _ _ => eq_refl) spin stack m u m' H) as H3.
  pose proof (adds_up_timer_initialize P call_eqb_cancel eq_refl eq_refl 0
                (fun _ _ _ => eq_refl) spin stack m u m' H) as H4.
  pose proof (adds_up_timer_initialize P call_eqb_hrt_init eq_refl eq_refl 0
                (fun _ _ _ => eq_refl) spin stack m u m' H) as H5.
  pose proof (adds_up_timer_initialize P call_eqb_panic eq_refl eq_refl 0
                (fun _ _ _ => eq_refl) spin stack m u m' H) as H6.
  unfold weight in *.
  cbn [call_eqb_start call_eqb_probe call_eqb_cancel call_eqb_hrt_init
       call_eqb_panic Z.eqb Pos.eqb Bool.eqb andb] in *.
  lia.
Qed.

(** On the drivers of the specification, with a tick of one second. *)
Lemma up_timer_initialize_call_counts_witness :
  returned (up_timer_initialize 8 (mk_timespec 0 0)
                                (at_reset 2 5 1000000 hw_fresh)) = true /\
  count_calls call_eqb_start
    (calls (machine_of (up_timer_initialize 8 (mk_timespec 0 0)
                                            (at_reset 2 5 1000000 hw_fresh))))
    = 1500%nat.
Proof.
  assert (Hr : returned (up_timer_initialize 8 (mk_timespec 0 0)
                                             (at_reset 2 5 1000000 hw_fresh))
               = true) by (vm_compute; reflexivity).
  split; [exact Hr|].
  destruct (up_timer_initialize 8 (mk_timespec 0 0)
                                (at_reset 2 5 1000000 hw_fresh))
    as [u m'|m'|m'] eqn:E; try discriminate Hr.
  destruct (up_timer_initialize_call_counts _ _ _ _ _ _ E) as [H _].
  cbn [machine_of]. rewrite H. reflexivity.
Defined.

(** ** The three operations in sequence *)

Lemma serve_returns (P : platform) (r : request) (m : system P) :
  exists s m1,
    serve r m = Returns s m1 /\
    calls m1 = driver_call r :: calls m /\
    test_cnt m1 = test_cnt m.
Proof.
  destruct r as [p|ts|p]; cbn [serve driver_call].
  - unfold bind, up_timer_gettime. split_pairs. do 2 eexists. repeat split.
  - unfold up_timer_start. split_pairs. do 2 eexists. repeat split.
  - unfold bind, up_timer_cancel. split_pairs. do 2 eexists. repeat split.
Qed.

Lemma requests_are_total (P : platform) (l : list request) :
  forall m : system P, exists ss m', serve_all l m = Returns ss m'.
Proof.
  induction l as [|r l IH]; intros m.
  - exists [], m. reflexivity.
  - destruct (serve_returns P r m) as (s & m1 & E1 & _).
    destruct (IH m1) as (ss & m2 & E2).
    exists (s :: ss), m2. cbn [serve_all]. unfold bind at 1. rewrite E1.
    unfold bind at 1. rewrite E2. reflexivity.
Qed.

(** X5.  The scheduler's requests are served one driver call each, in the order
    in which they come and whatever the statuses returned: after any
    sequence of [up_timer_gettime], [up_timer_start] and [up_timer_cancel]
    the log has grown by exactly the corresponding driver calls — no
    notification of the scheduler, no [PANIC()] among them — there is one
    status per request, and [test_cnt] is what it was. *)
Theorem requests_are_one_driver_call_each :
  forall (P : platform) (l : list request) (m : system P),
    exists (statuses : list Z) (m' : system P),
      serve_all l m = Returns statuses m' /\
      length statuses = length l /\
      calls m' = rev (map driver_call l) ++ calls m /\
      test_cnt m' = test_cnt m.
Proof.
  intros P l. induction l as [|r l IH]; intros m.
  - exists [], m. repeat split.
  - destruct (serve_returns P r m) as (s & m1 & E1 & C1 & T1).
    destruct (IH m1) as (ss & m2 & E2 & L2 & C2 & T2).
    exists (s :: ss), m2. cbn [serve_all]. unfold bind at 1. rewrite E1.
    unfold bind at 1. rewrite E2. split; [reflexivity|].
    split; [cbn; rewrite L2; reflexivity|].
    split; [|rewrite T2; exact T1].
    rewrite C2, C1. cbn [map rev]. rewrite <- app_assoc. reflexivity.
Qed.

(** X10.  The two halves of [g_tickless] are served independently: a
    sequence of [up_timer_gettime] requests leaves the one-shot half as it
    was, and a sequence of [up_timer_start] and [up_timer_cancel] requests
    leaves the free-running half as it was, whatever the drivers do with
    the half they are given. *)
Theorem requests_touch_their_own_half :
  forall (P : platform) (l : list request) (m : system P),
    (forallb is_gettime_request l = true ->
     oneshot (g_tickless (machine_of (serve_all l m))) =
       oneshot (g_tickless m)) /\
    (forallb (fun r => negb (is_gettime_request r)) l = true ->
     freerun (g_tickless (machine_of (serve_all l m))) =
       freerun (g_tickless m)).
Proof.
  intros P l. induction l as [|r l IH]; intros m; [split; reflexivity|].
  assert (Hr : exists s m1,
             serve r m = Returns s m1 /\
             (is_gettime_request r = true ->
              oneshot (g_tickless m1) = oneshot (g_tickless m)) /\
             (is_gettime_request r = false ->
              freerun (g_tickless m1) = freerun (g_tickless m))).
  { destruct r as [p|ts|p]; cbn [serve is_gettime_request].
    - unfold bind, up_timer_gettime. split_pairs.
      do 2 eexists. split; [reflexivity|]. split; [reflexivity|discriminate].
    - unfold up_timer_start. split_pairs.
      do 2 eexists. split; [reflexivity|]. split; [discriminate|reflexivity].
    - unfold bind, up_timer_cancel. split_pairs.
      do 2 eexists. split; [reflexivity|]. split; [discriminate|reflexivity]. }
  destruct Hr as (s & m1 & E1 & Ho & Hf).
  destruct (requests_are_total P l m1) as (ss & m2 & E2).
  assert (E : machine_of (serve_all (r :: l) m) = machine_of (serve_all l m1)).
  { cbn [serve_all]. unfold bind at 1. rewrite E1.
    unfold bind at 1. rewrite E2. reflexivity. }
  rewrite E. destruct (IH m1) as [IHo IHf]. cbn [forallb]. split.
  - intros H. apply andb_prop in H. destruct H as [H1 H2].
    rewrite (IHo H2). apply Ho, H1.
  - intros H. apply andb_prop in H. destruct H as [H1 H2].
    rewrite (IHf H2). apply Hf. destruct (is_gettime_request r);
      [discriminate H1|reflexivity].
Qed.

(** ** The busy-wait loop of [up_timer_initialize] *)

Section BusyWait.

Variable P : platform.
Implicit Types m : system P.

Lemma bind_spins (A B : Type) (x : M P A) (f : A -> M P B) m m' :
  x m = Spins m' -> bind x f m = Spins m'.
Proof. intros H. unfold bind. rewrite H. reflexivity. Qed.

Lemma read_test_cnt_inversion m c m1 :
  read_test_cnt m = Returns c m1 ->
  c = test_cnt m1 /\
  (m1 = m \/
   exists o w,
     oneshot_irq P (oneshot (g_tickless m)) (outside m) = Some (o, w) /\
     outside m1 = sched_timer_expiration P w) /\
  forall f, f Call_sched_timer_expiration = false ->
            count_calls f (calls m1) = count_calls f (calls m).
Proof.
  unfold read_test_cnt, bind, irq_window, stm32_oneshot_handler.
  destruct (oneshot_irq P (oneshot (g_tickless m)) (outside m)) as [[o w]|];
    intros H; inversion H; subst; clear H.
  - split; [reflexivity|]. split.
    + right. exists o, w. split; reflexivity.
    + intros f Hf. cbn [calls set_outside record set_test_cnt set_oneshot].
      rewrite count_calls_cons, Hf. reflexivity.
  - split; [reflexivity|]. split; [now left|reflexivity].
Qed.

Lemma do_hrt_absolute_time_inversion m t m2 :
  do_hrt_absolute_time P m = Returns t m2 ->
  t = fst (hrt_absolute_time P (outside m)) /\
  outside m2 = snd (hrt_absolute_time P (outside m)) /\
  calls m2 = Call_hrt_absolute_time :: calls m /\
  test_cnt m2 = test_cnt m.
Proof.
  unfold do_hrt_absolute_time.
  destruct (hrt_absolute_time P (outside m)) as [t' w].
  intros H; inversion H; subst; clear H. repeat split.
Qed.

(** What an interrupt window leaves: the system as it was, or one more
    notification and an incremented [test_cnt]. *)
Lemma irq_window_inversion m u m1 :
  irq_window m = Returns u m1 ->
  (m1 = m \/
   exists o w,
     oneshot_irq P (oneshot (g_tickless m)) (outside m) = Some (o, w) /\
     outside m1 = sched_timer_expiration P w /\
     test_cnt m1 = wrap_int (test_cnt m + 1) /\
     calls m1 = Call_sched_timer_expiration :: calls m) /\
  forall f, f Call_sched_timer_expiration = false ->
            count_calls f (calls m1) = count_calls f (calls m).
Proof.
  unfold irq_window, stm32_oneshot_handler.
  destruct (oneshot_irq P (oneshot (g_tickless m)) (outside m)) as [[o w]|];
    intros H; inversion H; subst; clear H.
  - split.
    + right. exists o, w. repeat split.
    + intros f Hf. cbn [calls set_outside record set_test_cnt set_oneshot].
      rewrite count_calls_cons, Hf. reflexivity.
  - split; [now left|reflexivity].
Qed.

Lemma read_test_cnt_window m c m1 :
  read_test_cnt m = Returns c m1 ->
  irq_window m = Returns tt m1 /\ c = test_cnt m1.
Proof.
  unfold read_test_cnt, bind.
  destruct (irq_window m) as [[] m0|m0|m0]; intros H; inversion H; subst.
  split; reflexivity.
Qed.

Lemma cancel_and_compare_inversion v m v' m' :
  cancel_and_compare P v m = Returns v' m' ->
  exists m1 m2,
    irq_window m = Returns tt m1 /\
    calls m2 = Call_stm32_oneshot_cancel :: calls m1 /\
    irq_window m2 = Returns tt m' /\
    delay v' = delay v /\ Ts v' = Ts v /\ Tn v' = Tn v /\ D v' = D v.
Proof.
  unfold cancel_and_compare. intros H.
  destruct (bind_inversion P _ _ _ _ _ _ _ H) as ([] & m1 & E1 & H1).
  destruct (bind_inversion P _ _ _ _ _ _ _ H1) as (r & m2 & E2 & H2).
  destruct (bind_inversion P _ _ _ _ _ _ _ H2) as ([] & m3 & E3 & H3).
  unfold ret in H3. inversion H3; subst; clear H3.
  exists m1, m2. split; [exact E1|]. split; [|split; [exact E3|repeat split]].
  revert E2. unfold up_timer_cancel.
  destruct (stm32_oneshot_cancel P (oneshot (g_tickless m1))
              (Some (remain v)) (outside m1)) as [[[r' t] o] w].
  intros E2; inversion E2; subst; clear E2. reflexivity.
Qed.

(** X6.  The wait ends in one of two ways only, wherever the one-shot
    interrupt is taken.  Either a read of [test_cnt] has shown a value
    other than the one sampled before the alarm was armed, and the wait
    has cancelled nothing.  Or the alarm has been cancelled, once, after a
    reading of the clock at which the time since the start,
    [D = Tn - Ts] in 64-bit arithmetic, was at least half the delay asked
    for; from that reading on nothing is called but [up_timer_cancel]
    and, if the interrupt is taken before or after it, the scheduler.  So
    the loop never cancels on a reading below half the delay, and it can
    cancel an alarm that has expired since the reading. *)
Theorem busy_wait_ends_one_of_two_ways :
  forall (spin : nat) (cnt : Z) (v : locals) m (v' : locals) (m' : system P),
    busy_wait P spin cnt v m = Returns v' m' ->
    (test_cnt m' <> cnt /\
     count_calls call_eqb_cancel (calls m') =
       count_calls call_eqb_cancel (calls m)) \/
    ((exists l1 l2 rest,
         calls m' =
           l2 ++ Call_stm32_oneshot_cancel :: l1 ++
           Call_hrt_absolute_time :: rest /\
         (l1 = [] \/ l1 = [Call_sched_timer_expiration]) /\
         (l2 = [] \/ l2 = [Call_sched_timer_expiration])) /\
     count_calls call_eqb_cancel (calls m') =
       S (count_calls call_eqb_cancel (calls m)) /\
     delay v / 2 <= D v' /\
     D v' = wrap_u64 (Tn v' - Ts v)).
Proof.
  induction spin as [|spin IH]; intros cnt v m v' m' H; [discriminate H|].
  cbn [busy_wait] in H.
  destruct (bind_inversion P _ _ _ _ _ _ _ H) as (c & m1 & E1 & H1).
  destruct (read_test_cnt_inversion _ _ _ E1) as (Hc & _ & Hcount1).
  specialize (Hcount1 call_eqb_cancel eq_refl).
  destruct (cnt =? c) eqn:Ec.
  - destruct (bind_inversion P _ _ _ _ _ _ _ H1) as ([] & mw & Ew & Hw).
    destruct (irq_window_inversion _ _ _ Ew) as (_ & Hcountw).
    specialize (Hcountw call_eqb_cancel eq_refl).
    destruct (bind_inversion P _ _ _ _ _ _ _ Hw) as (t & m2 & E2 & H2).
    destruct (do_hrt_absolute_time_inversion _ _ _ E2) as (_ & _ & C2 & _).
    cbv zeta in H2. cbn [delay D Ts Tn] in H2.
    destruct (delay v / 2 <=? wrap_u64 (wrap_u64 t - Ts v)) eqn:Ed.
    + right. apply Z.leb_le in Ed.
      destruct (cancel_and_compare_inversion _ _ _ _ H2)
        as (m3 & m4 & E3 & C4 & E5 & _ & _ & Htn & Hd).
      cbn [delay D Ts Tn] in Htn, Hd.
      destruct (irq_window_inversion _ _ _ E3) as (Hm3 & Hcount3).
      destruct (irq_window_inversion _ _ _ E5) as (Hm5 & Hcount5).
      specialize (Hcount3 call_eqb_cancel eq_refl).
      specialize (Hcount5 call_eqb_cancel eq_refl).
      split.
      * assert (L1 : exists l1, calls m3 = l1 ++ calls m2 /\
                                (l1 = [] \/ l1 = [Call_sched_timer_expiration])).
        { destruct Hm3 as [->|(o & w & _ & _ & _ & C)].
          - exists []. split; [reflexivity|now left].
          - exists [Call_sched_timer_expiration]. split; [exact C|now right]. }
        assert (L2 : exists l2, calls m' = l2 ++ calls m4 /\
                                (l2 = [] \/ l2 = [Call_sched_timer_expiration])).
        { destruct Hm5 as [->|(o & w & _ & _ & _ & C)].
          - exists []. split; [reflexivity|now left].
          - exists [Call_sched_timer_expiration]. split; [exact C|now right]. }
        destruct L1 as (l1 & C3 & Hl1). destruct L2 as (l2 & C5 & Hl2).
        exists l1, l2, (calls mw). split; [|split; assumption].
        rewrite C5, C4, C3, C2. reflexivity.
      * split.
        -- rewrite Hcount5, C4, count_calls_cons, Hcount3, C2, count_calls_cons,
             Hcountw, Hcount1. reflexivity.
        -- rewrite Hd, Htn. split; [exact Ed|reflexivity].
    + destruct (IH _ _ _ _ _ H2) as [[Ht Hn]|(Hrest & Hn & Hd & He)];
        cbn [delay D Ts Tn] in *.
      * left. split; [exact Ht|].
        rewrite Hn, C2, count_calls_cons, Hcountw, Hcount1. reflexivity.
      * right. split; [exact Hrest|].
        split; [rewrite Hn, C2, count_calls_cons, Hcountw, Hcount1;
                reflexivity|].
        split; assumption.
  - left. unfold ret in H1. inversion H1; subst; clear H1.
    split; [|exact Hcount1].
    apply Z.eqb_neq in Ec. congruence.
Qed.

Lemma busy_wait_ends_or_cancels :
  forall (spin : nat) (cnt : Z) (v : locals) m (v' : locals) (m' : system P),
    busy_wait P spin cnt v m = Returns v' m' ->
    test_cnt m' <> cnt \/
    count_calls call_eqb_cancel (calls m') =
      S (count_calls call_eqb_cancel (calls m)).
Proof.
  induction spin as [|spin IH]; intros cnt v m v' m' H; [discriminate H|].
  cbn [busy_wait] in H.
  destruct (bind_inversion P _ _ _ _ _ _ _ H) as (c & m1 & E1 & H1).
  destruct (read_test_cnt_inversion _ _ _ E1) as (Hc & _ & Hcount1).
  specialize (Hcount1 call_eqb_cancel eq_refl).
  destruct (cnt =? c) eqn:Ec.
  - destruct (bind_inversion P _ _ _ _ _ _ _ H1) as ([] & mw & Ew & Hw).
    destruct (irq_window_inversion _ _ _ Ew) as (_ & Hcountw).
    specialize (Hcountw call_eqb_cancel eq_refl).
    destruct (bind_inversion P _ _ _ _ _ _ _ Hw) as (t & m2 & E2 & H2).
    destruct (do_hrt_absolute_time_inversion _ _ _ E2) as (_ & _ & C2 & _).
    cbv zeta in H2. cbn [delay D Ts Tn] in H2.
    destruct (delay v / 2 <=? wrap_u64 (wrap_u64 t - Ts v)).
    + right.
      destruct (cancel_and_compare_inversion _ _ _ _ H2)
        as (m3 & m4 & E3 & C4 & E5 & _).
      destruct (irq_window_inversion _ _ _ E3) as (_ & Hcount3).
      destruct (irq_window_inversion _ _ _ E5) as (_ & Hcount5).
      specialize (Hcount3 call_eqb_cancel eq_refl).
      specialize (Hcount5 call_eqb_cancel eq_refl).
      rewrite Hcount5, C4, count_calls_cons, Hcount3, C2, count_calls_cons,
        Hcountw, Hcount1. reflexivity.
    + destruct (IH _ _ _ _ _ H2) as [Ht|Hn]; [now left|right].
      rewrite Hn, C2, count_calls_cons, Hcountw, Hcount1. reflexivity.
  - left. unfold ret in H1. inversion H1; subst; clear H1.
    apply Z.eqb_neq in Ec. congruence.
Qed.

(** *** A clock that stands still *)

Hypothesis no_interrupt : forall o w, oneshot_irq P o w = None.
Variable t0 : Z.
Hypothesis clock_stands :
  forall w, wrap_u64 (fst (hrt_absolute_time P w)) = t0.

Lemma irq_window_quiet m : irq_window m = Returns tt m.
Proof. unfold irq_window. rewrite no_interrupt. reflexivity. Qed.

Lemma read_test_cnt_quiet m : read_test_cnt m = Returns (test_cnt m) m.
Proof.
  unfold read_test_cnt, bind, irq_window. rewrite no_interrupt. reflexivity.
Qed.

Lemma busy_wait_stalled spin :
  forall v m,
    Ts v = t0 -> 0 < delay v / 2 ->
    exists m',
      busy_wait P spin (test_cnt m) v m = Spins m' /\
      (forall f, f Call_hrt_absolute_time = false ->
                 count_calls f (calls m') = count_calls f (calls m)).
Proof.
  induction spin as [|spin IH]; intros v m HTs Hdelay.
  - exists m. split; reflexivity.
  - cbn [busy_wait]. rewrite (bind_returns P _ _ _ _ _ _ _ (read_test_cnt_quiet m)).
    rewrite Z.eqb_refl.
    rewrite (bind_returns P _ _ _ _ _ _ _ (irq_window_quiet m)).
    destruct (do_hrt_absolute_time P m) as [t m2|m2|m2] eqn:E2;
      try (exfalso; revert E2; unfold do_hrt_absolute_time; split_pairs;
           discriminate).
    destruct (do_hrt_absolute_time_inversion _ _ _ E2) as (Ht & _ & C2 & T2).
    rewrite (bind_returns P _ _ _ _ _ _ _ E2).
    cbv zeta. cbn [delay D Ts Tn].
    assert (Hw : wrap_u64 t = t0) by (rewrite Ht; apply clock_stands).
    rewrite Hw, HTs, Z.sub_diag.
    change (wrap_u64 0) with 0.
    destruct (delay v / 2 <=? 0) eqn:Ed; [apply Z.leb_le in Ed; lia|].
    rewrite <- T2.
    destruct (IH (mk_locals (bk v) (st v) (delay v) (ts_ v) (remain v)
                            (Ts v) t0 0 (Dt v)) m2 HTs Hdelay)
      as (m' & E & Hcount).
    rewrite HTs in E. exists m'. split; [exact E|].
    intros f Hf. rewrite (Hcount f Hf), C2, count_calls_cons, Hf. reflexivity.
Qed.

(** X7.  If the one-shot interrupt is never taken and the high-resolution clock
    shows the same time at every reading, [up_timer_initialize] does not
    come back from its first wait, however long it is followed: it has
    armed the alarm once, for 50 microseconds, and waits for a change of
    [test_cnt] or of the clock without ever cancelling. *)
Theorem up_timer_initialize_waits_forever :
  forall (stack : timespec) m (r1 r2 : Z) (m1 m2 : system P),
    call_stm32_oneshot_initialize P (CONFIG_STM32_TICKLESS_ONESHOT P)
                                  (CONFIG_USEC_PER_TICK P) m
      = Returns r1 m1 ->
    0 <= r1 ->
    call_stm32_freerun_initialize P (CONFIG_STM32_TICKLESS_FREERUN P)
                                  (CONFIG_USEC_PER_TICK P) m1
      = Returns r2 m2 ->
    0 <= r2 ->
    forall spin : nat,
    exists m',
      up_timer_initialize spin stack m = Spins m' /\
      count_calls call_eqb_start (calls m') =
        S (count_calls call_eqb_start (calls m)) /\
      count_calls call_eqb_cancel (calls m') =
        count_calls call_eqb_cancel (calls m) /\
      count_calls call_eqb_expiration (calls m') =
        count_calls call_eqb_expiration (calls m).
Proof.
  intros stack m r1 r2 m1 m2 H1 Hr1 H2 Hr2 spin.
  assert (C1 : forall f, count_calls f (calls m1) =
                         (weight f (Call_stm32_oneshot_initialize
                                      (CONFIG_STM32_TICKLESS_ONESHOT P)
                                      (CONFIG_USEC_PER_TICK P))
                          + count_calls f (calls m))%nat).
  { intros f. revert H1. unfold call_stm32_oneshot_initialize. split_pairs.
    intros H; inversion H; subst; clear H. apply count_calls_cons. }
  assert (C2 : forall f, count_calls f (calls m2) =
                         (weight f (Call_stm32_freerun_initialize
                                      (CONFIG_STM32_TICKLESS_FREERUN P)
                                      (CONFIG_USEC_PER_TICK P))
                          + count_calls f (calls m1))%nat).
  { intros f. revert H2. unfold call_stm32_freerun_initialize. split_pairs.
    intros H; inversion H; subst; clear H. apply count_calls_cons. }
  unfold up_timer_initialize.
  rewrite (bind_returns P _ _ _ _ _ _ _ H1).
  apply Z.ltb_ge in Hr1. rewrite Hr1.
  rewrite (bind_returns P _ _ (ret tt) _ _ _ _ eq_refl).
  rewrite (bind_returns P _ _ _ _ _ _ _ H2).
  apply Z.ltb_ge in Hr2. rewrite Hr2.
  rewrite (bind_returns P _ _ (ret tt) _ _ _ _ eq_refl).
  rewrite (bind_returns P _ _ (do_hrt_init P) _ _ _ _ eq_refl).
  set (m3 := set_outside (hrt_init P (outside m2)) (record Call_hrt_init m2)).
  destruct (up_timer_start_returns P (mk_timespec 0 (50 * 1000))
              (set_outside (PROBE P 3 true (outside m3))
                           (record (Call_PROBE 3 true) m3)))
    as (r & m5 & E5 & C5).
  destruct (do_hrt_absolute_time P m5) as [t m6|m6|m6] eqn:E6;
    try (exfalso; revert E6; unfold do_hrt_absolute_time; split_pairs;
         discriminate).
  destruct (do_hrt_absolute_time_inversion _ _ _ E6) as (Ht & _ & C6 & T6).
  assert (T5 : test_cnt m5 = test_cnt m3).
  { revert E5. unfold up_timer_start. split_pairs.
    intros H; inversion H; subst; clear H. reflexivity. }
  destruct (busy_wait_stalled spin
              (mk_locals (bk (locals_init stack)) (st (locals_init stack))
                         (wrap_u64 (Z.quot (50 * 1000) 1000 + 0 * 1000000))
                         (mk_timespec 0 (50 * 1000))
                         (remain (locals_init stack)) (wrap_u64 t)
                         (Tn (locals_init stack)) (D (locals_init stack))
                         (Dt (locals_init stack)))
              m6)
    as (m' & E & Hcount).
  { cbn [Ts]. rewrite Ht. apply clock_stands. }
  { cbn [delay]. vm_compute. reflexivity. }
  rewrite T6, T5 in E.
  exists m'. split.
  - unfold sweep. apply bind_spins.
    rewrite (for_loop_enter P 5) by reflexivity. apply bind_spins.
    rewrite (for_loop_enter P 150) by reflexivity. apply bind_spins.
    change (while_j P 2 ?b ?v)
      with (bind (b v) (fun v' => while_j P 1 b v')).
    apply bind_spins. unfold sweep_body.
    rewrite (bind_returns P _ _ _ _ _ _ _ (read_test_cnt_quiet m3)).
    rewrite (bind_returns P _ _ (do_PROBE P 3 true) _ _ _ _ eq_refl).
    rewrite (bind_returns P _ _ _ _ _ _ _ E5).
    rewrite (bind_returns P _ _ _ _ _ _ _ (irq_window_quiet m5)).
    rewrite (bind_returns P _ _ _ _ _ _ _ E6).
    apply bind_spins. cbn [tv_sec tv_nsec]. exact E.
  - rewrite !Hcount by reflexivity.
    rewrite C6, C5. cbn [calls set_outside record m3].
    rewrite !count_calls_cons, !C2, !C1. unfold weight. cbn. lia.
Qed.

End BusyWait.

(** *** A clock that advances *)

Section ClockAdvances.

Variable P : platform.
Variable clock : world P -> Z.
Variable a : Z.
Hypothesis advances : clock_advances P clock a.

Implicit Types m : system P.

Lemma step_is_positive (w : world P) : 1 <= a.
Proof. destruct advances as [H _]. specialize (H w). lia. Qed.

Lemma always_returns_bind (A B : Type) (x : M P A) (f : A -> M P B) :
  always_returns x -> (forall a', always_returns (f a')) ->
  always_returns (bind x f).
Proof.
  intros Hx Hf m. specialize (Hx m). unfold bind.
  destruct (x m) as [a' m'|m'|m']; [apply Hf|discriminate..].
Qed.

Lemma returned_bind (A B : Type) (x : M P A) (f : A -> M P B) m a' m' :
  x m = Returns a' m' -> returned (f a' m') = true ->
  returned (bind x f m) = true.
Proof. intros H Hf. unfold bind. rewrite H. exact Hf. Qed.

Lemma returned_then (A B : Type) (x : M P A) (f : A -> M P B) m :
  returned (x m) = true -> (forall a', always_returns (f a')) ->
  returned (bind x f m) = true.
Proof.
  intros Hx Hf. unfold bind.
  destruct (x m) as [a' m'|m'|m']; [apply Hf|discriminate..].
Qed.

Lemma always_returns_ret (A : Type) (v : A) : always_returns (ret (P := P) v).
Proof. intros m. reflexivity. Qed.

Lemma irq_window_clock m :
  exists m1,
    irq_window m = Returns tt m1 /\
    (m1 = m \/
     (test_cnt m1 = wrap_int (test_cnt m + 1) /\
      clock (outside m) <= clock (outside m1) <= clock (outside m) + a)).
Proof.
  destruct (irq_window m) as [[] m1|m1|m1] eqn:E;
    try (exfalso; revert E; unfold irq_window, stm32_oneshot_handler;
         destruct (oneshot_irq P _ _) as [[? ?]|]; discriminate).
  exists m1. split; [reflexivity|].
  destruct (irq_window_inversion P _ _ _ E) as ([->|(o & w & Hi & Ho & Ht & _)] & _).
  - now left.
  - right. split; [exact Ht|].
    rewrite Ho. destruct advances as [_ H]. apply (H _ _ _ _ Hi).
Qed.

Lemma read_test_cnt_clock m :
  exists m1,
    read_test_cnt m = Returns (test_cnt m1) m1 /\
    (m1 = m \/
     (test_cnt m1 = wrap_int (test_cnt m + 1) /\
      clock (outside m) <= clock (outside m1) <= clock (outside m) + a)).
Proof.
  destruct (irq_window_clock m) as (m1 & E & H).
  exists m1. split; [|exact H].
  unfold read_test_cnt, bind. rewrite E. reflexivity.
Qed.

Lemma do_hrt_absolute_time_clock m :
  exists t m2,
    do_hrt_absolute_time P m = Returns t m2 /\
    wrap_u64 t = wrap_u64 (clock (outside m)) /\
    clock (outside m) + 1 <= clock (outside m2) <= clock (outside m) + a /\
    test_cnt m2 = test_cnt m.
Proof.
  destruct (do_hrt_absolute_time P m) as [t m2|m2|m2] eqn:E;
    try (exfalso; revert E; unfold do_hrt_absolute_time; split_pairs;
         discriminate).
  destruct (do_hrt_absolute_time_inversion P _ _ _ E) as (Ht & Ho & _ & Hc).
  exists t, m2. split; [reflexivity|].
  destruct advances as [H _]. specialize (H (outside m)).
  rewrite Ht, Ho. split; [apply H|]. split; [apply H|exact Hc].
Qed.

Lemma always_returns_irq_window : always_returns (irq_window (P := P)).
Proof. intros m. destruct (irq_window_clock m) as (m1 & E & _). rewrite E. reflexivity. Qed.

Lemma always_returns_cancel_and_compare v :
  always_returns (cancel_and_compare P v).
Proof.
  unfold cancel_and_compare.
  apply always_returns_bind; [apply always_returns_irq_window|]. intros _.
  apply always_returns_bind;
    [intros m; unfold up_timer_cancel; split_pairs; reflexivity|]. intros r.
  apply always_returns_bind; [apply always_returns_irq_window|]. intros _.
  apply always_returns_ret.
Qed.

(** The wait comes to an end within as many rounds as there are
    microseconds left of half the delay, or at the next read of
    [test_cnt] once the interrupt has been taken. *)
Lemma busy_wait_returns spin :
  forall cnt v m cs,
    Ts v = wrap_u64 cs ->
    0 <= delay v / 2 ->
    delay v / 2 + 2 * a < 2 ^ 64 ->
    (1 <= spin)%nat ->
    test_cnt m = wrap_int (cnt + 1) \/
    (test_cnt m = cnt /\
     cs + 1 <= clock (outside m) <= cs + delay v / 2 + a /\
     Z.max 0 (delay v / 2 - (clock (outside m) - cs)) < Z.of_nat spin) ->
    returned (busy_wait P spin cnt v m) = true.
Proof.
  induction spin as [|spin IH]; intros cnt v m cs HTs Hh Hbig Hspin Hinv;
    [lia|].
  cbn [busy_wait].
  destruct (read_test_cnt_clock m) as (m1 & E1 & Hm1).
  apply (returned_bind _ _ _ _ _ _ _ E1).
  destruct (cnt =? test_cnt m1) eqn:Ec; [|reflexivity].
  apply Z.eqb_eq in Ec.
  assert (Hquiet : m1 = m /\ test_cnt m = cnt /\
                   cs + 1 <= clock (outside m) <= cs + delay v / 2 + a /\
                   Z.max 0 (delay v / 2 - (clock (outside m) - cs))
                   < Z.of_nat (S spin)).
  { destruct Hinv as [Hb|(Ha & Hclock & Hfuel)].
    - exfalso. destruct Hm1 as [->|[Ht _]].
      + apply (wrap_int_shift_ne cnt 1); [lia|congruence].
      + rewrite Hb, wrap_int_add in Ht.
        apply (wrap_int_shift_ne cnt 2); [lia|].
        replace (cnt + 2) with (cnt + 1 + 1) by ring. congruence.
    - destruct Hm1 as [->|[Ht _]]; [auto|].
      exfalso. rewrite Ha in Ht.
      apply (wrap_int_shift_ne cnt 1); [lia|congruence]. }
  destruct Hquiet as (-> & Ha & Hclock & Hfuel). clear Hm1 Hinv Ec.
  destruct (irq_window_clock m) as (mw & Ew & Hmw).
  apply (returned_bind _ _ _ _ _ _ _ Ew).
  destruct (do_hrt_absolute_time_clock mw) as (t & m2 & E2 & Ht & Hc2 & Hcnt2).
  apply (returned_bind _ _ _ _ _ _ _ E2).
  cbv zeta. cbn [delay D Ts Tn].
  assert (Hcw : clock (outside m) <= clock (outside mw) <= clock (outside m) + a).
  { destruct Hmw as [->|[_ H]]; [|exact H].
    pose proof (step_is_positive (outside m)). lia. }
  assert (HD : wrap_u64 (wrap_u64 t - Ts v) = clock (outside mw) - cs).
  { rewrite Ht, HTs. unfold wrap_u64.
    rewrite <- Zminus_mod. apply Z.mod_small. lia. }
  rewrite HD.
  destruct (delay v / 2 <=? clock (outside mw) - cs) eqn:Ed.
  - apply always_returns_cancel_and_compare.
  - apply Z.leb_gt in Ed.
    apply IH with (cs := cs); cbn [delay Ts]; try assumption; [lia|].
    destruct Hmw as [->|[Htw _]].
    + right. split; [congruence|]. lia.
    + left. rewrite Hcnt2, Htw, Ha. reflexivity.
Qed.

Hypothesis room : 2007500 + 2 * a < 2 ^ 64.
Variable spin : nat.
Hypothesis enough : 2007500 <= Z.of_nat spin.

Lemma always_returns_sweep_body s i v :
  0 <= s < 5 -> 50 <= i < 15000 ->
  always_returns (sweep_body P spin s i v).
Proof.
  intros Hs Hi m. unfold sweep_body.
  destruct (read_test_cnt_clock m) as (m1 & E1 & _).
  apply (returned_bind _ _ _ _ _ _ _ E1).
  apply (returned_bind _ _ (do_PROBE P 3 true) _ _ _ _ eq_refl).
  destruct (up_timer_start (P := P) (mk_timespec s (i * 1000))
              (set_outside (PROBE P 3 true (outside m1))
                           (record (Call_PROBE 3 true) m1)))
    as [r m3|m3|m3] eqn:E3;
    try (exfalso; revert E3; unfold up_timer_start; split_pairs; discriminate).
  assert (T3 : test_cnt m3 = test_cnt m1).
  { revert E3. unfold up_timer_start. split_pairs.
    intros H; inversion H; subst; clear H. reflexivity. }
  apply (returned_bind _ _ _ _ _ _ _ E3).
  destruct (irq_window_clock m3) as (mw & Ew & Hmw).
  apply (returned_bind _ _ _ _ _ _ _ Ew).
  destruct (do_hrt_absolute_time_clock mw) as (t & m4 & E4 & Ht & Hc4 & Hcnt4).
  apply (returned_bind _ _ _ _ _ _ _ E4).
  apply returned_then;
    [|intros v2; apply always_returns_bind;
        [apply always_returns_irq_window
        |intros u; apply always_returns_bind;
           [intros m5; reflexivity|intros u'; apply always_returns_ret]]].
  cbn [tv_sec tv_nsec].
  assert (Hdelay : wrap_u64 (Z.quot (i * 1000) 1000 + s * 1000000)
                   = i + s * 1000000).
  { rewrite Z.quot_mul by lia. unfold wrap_u64. apply Z.mod_small. lia. }
  assert (Hhalf : 0 <= (i + s * 1000000) / 2 <= 2007500).
  { split; [apply Z.div_pos; lia|].
    apply Z.div_le_upper_bound; lia. }
  pose proof (step_is_positive (outside m)) as Ha.
  apply busy_wait_returns with (cs := clock (outside mw));
    cbn [delay Ts]; rewrite ?Hdelay; try lia; try exact Ht.
  destruct Hmw as [->|[Htw _]].
  - right. split; [congruence|]. lia.
  - left. rewrite Hcnt4, Htw, T3. reflexivity.
Qed.

Lemma always_returns_while_j (body : locals -> M P locals) :
  (forall v, always_returns (body v)) ->
  forall j v, always_returns (while_j P j body v).
Proof.
  intros Hb. induction j as [|j IH]; intros v; cbn [while_j].
  - apply always_returns_ret.
  - apply always_returns_bind; [apply Hb|]. intros v'. apply IH.
Qed.

Lemma always_returns_for_loop (body : Z -> locals -> M P locals) (lo hi step : Z) :
  0 <= step ->
  (forall x v, lo <= x < hi -> always_returns (body x v)) ->
  forall n x v, lo <= x -> always_returns (for_loop P n x hi step body v).
Proof.
  intros Hstep Hb. induction n as [|n IH]; intros x v Hlo; cbn [for_loop].
  - apply always_returns_ret.
  - destruct (x <? hi) eqn:E; [|apply always_returns_ret].
    apply Z.ltb_lt in E.
    apply always_returns_bind; [apply Hb; lia|].
    intros v'. apply IH. lia.
Qed.

Lemma always_returns_sweep stack : always_returns (sweep P spin stack).
Proof.
  unfold sweep.
  apply always_returns_bind; [|intros v; apply always_returns_ret].
  apply always_returns_for_loop with (lo := 0); [lia| |lia].
  intros s v Hs.
  apply always_returns_for_loop with (lo := 50); [lia| |lia].
  intros i v0 Hi.
  apply always_returns_while_j. intros v1.
  apply always_returns_sweep_body; assumption.
Qed.

(** X8.  If every reading of the high-resolution clock takes at least one
    microsecond, and neither a reading nor an interrupt takes more than
    [a], then [up_timer_initialize] returns once both timers are
    initialised, whether or not the one-shot timer ever fires and whatever
    the drivers return: each of its waits is over within 2007500 rounds,
    which is more than the number of microseconds in half of its longest
    interval. *)
Theorem up_timer_initialize_returns :
  forall (stack : timespec) m (r1 r2 : Z) (m1 m2 : system P),
    call_stm32_oneshot_initialize P (CONFIG_STM32_TICKLESS_ONESHOT P)
                                  (CONFIG_USEC_PER_TICK P) m
      = Returns r1 m1 ->
    0 <= r1 ->
    call_stm32_freerun_initialize P (CONFIG_STM32_TICKLESS_FREERUN P)
                                  (CONFIG_USEC_PER_TICK P) m1
      = Returns r2 m2 ->
    0 <= r2 ->
    returned (up_timer_initialize spin stack m) = true.
Proof.
  intros stack m r1 r2 m1 m2 H1 Hr1 H2 Hr2.
  unfold up_timer_initialize.
  apply (returned_bind _ _ _ _ _ _ _ H1).
  apply Z.ltb_ge in Hr1. rewrite Hr1.
  apply (returned_bind _ _ (ret tt) _ _ _ _ eq_refl).
  apply (returned_bind _ _ _ _ _ _ _ H2).
  apply Z.ltb_ge in Hr2. rewrite Hr2.
  apply (returned_bind _ _ (ret tt) _ _ _ _ eq_refl).
  apply (returned_bind _ _ (do_hrt_init P) _ _ _ _ eq_refl).
  apply always_returns_sweep.
Qed.

End ClockAdvances.

(** ** The configurations that build *)

Lemma app_nil_iff (A : Type) (l1 l2 : list A) :
  l1 ++ l2 = [] <-> l1 = [] /\ l2 = [].
Proof.
  split; [apply app_eq_nil|]. intros [-> ->]. reflexivity.
Qed.

Lemma when_nil (b : bool) (e : build_error) : when b e = [] <-> b = false.
Proof. destruct b; cbn; split; congruence. Qed.

(** The 64 bits of an operand. *)
Lemma bits_literal (n : Z) : 0 <= n < 2 ^ 64 -> bits (literal n) = n.
Proof. intros H. cbn [literal bits]. apply Z.mod_small, H. Qed.

Lemma bits_operand_of (z : Z) : bits (operand_of z) = z mod 2 ^ 64.
Proof.
  unfold operand_of. destruct (z <? 0); cbn [negated literal bits].
  - change (- (- z mod 2 ^ 64)) with (0 - (- z) mod 2 ^ 64).
    rewrite Zminus_mod_idemp_r. f_equal. lia.
  - reflexivity.
Qed.

Lemma bits_macro_value (v : option Z) :
  bits (macro_value v) = match v with Some z => z mod 2 ^ 64 | None => 0 end /\
  0 <= bits (macro_value v) < 2 ^ 64.
Proof.
  destruct v as [z|]; cbn [macro_value].
  - rewrite bits_operand_of. split; [reflexivity|].
    apply Z.mod_pos_bound. reflexivity.
  - split; [reflexivity|]. cbn. lia.
Qed.

(** A chain of [#elif]s gives no error exactly when the timer that the
    number designates, if the chain knows it, is selected. *)
Lemma tim_chain_nil (mk : Z -> build_error) (v : operand) (tim : Z -> bool)
      (ns : list Z) :
  Forall (fun n => 0 <= n < 2 ^ 64) ns ->
  (tim_chain mk v tim ns = [] <-> (In (bits v) ns -> tim (bits v) = true)).
Proof.
  induction ns as [|n ns IH]; intros Hns; cbn [tim_chain In].
  - split; [intros _ []|reflexivity].
  - inversion Hns as [|n' ns' Hn Hns']; subst. specialize (IH Hns').
    unfold cpp_eqb at 1. rewrite (bits_literal n Hn).
    destruct (Z.eqb_spec (bits v) n) as [E|Hne]; cbn [andb].
    + rewrite E in *. destruct (tim n) eqn:Et; cbn [negb].
      * rewrite IH. split; intros; reflexivity.
      * split; [discriminate|]. intros H.
        specialize (H (or_introl eq_refl)). discriminate H.
    + rewrite IH. split; intros H Hin; apply H.
      * destruct Hin as [Heq|Hin]; [congruence|exact Hin].
      * now right.
Qed.

Lemma timer_numbers_fit : Forall (fun n => 0 <= n < 2 ^ 64) timer_numbers.
Proof. unfold timer_numbers. repeat constructor; lia. Qed.

Lemma in_timer_numbers (v : Z) : In v timer_numbers <-> 1 <= v <= 14.
Proof. unfold timer_numbers. cbn [In]. lia. Qed.

(** [v < 1 || v > 14] is false exactly when the 64 bits of [v] are a
    number from 1 to 14, whether [v] is signed or not. *)
Lemma out_of_range_false (x : operand) :
  0 <= bits x < 2 ^ 64 ->
  (cpp_ltb x (literal 1) || cpp_ltb (literal 14) x = false <->
   1 <= bits x <= 14).
Proof.
  intros Hb. unfold cpp_ltb.
  change (literal 1) with (mk_operand 1 false).
  change (literal 14) with (mk_operand 14 false).
  cbn [is_unsigned bits]. rewrite orb_false_r. cbn [orb].
  change (signed_value (mk_operand 1 false)) with 1.
  change (signed_value (mk_operand 14 false)) with 14.
  unfold signed_value.
  destruct (is_unsigned x); rewrite orb_false_iff, !Z.ltb_ge;
    [lia|].
  destruct (bits x <? 2 ^ 63) eqn:E;
    [apply Z.ltb_lt in E|apply Z.ltb_ge in E]; lia.
Qed.

(** A number that makes a signed operand is its own 64 bits when it is a
    timer number, and otherwise its 64 bits are none. *)
Lemma fits_intmax_bits (z : Z) :
  fits_intmax (Some z) = true ->
  (1 <= z mod 2 ^ 64 <= 14 <-> 1 <= z <= 14) /\
  (1 <= z <= 14 -> z mod 2 ^ 64 = z).
Proof.
  cbn [fits_intmax]. intros H. apply andb_prop in H. destruct H as [H1 H2].
  apply Z.ltb_lt in H1, H2.
  pose proof (Z.div_mod z (2 ^ 64) ltac:(lia)) as E.
  pose proof (Z.mod_pos_bound z (2 ^ 64) eq_refl) as B.
  split; [|intros Hz; apply Z.mod_small; lia].
  lia.
Qed.

Lemma build_errors_nil_bits (os : bool) (fr : bool) (o f : option Z)
      (tim : Z -> bool) :
  build_errors (mk_config true os fr o f tim) = [] <->
  os = true /\
  exists o' f',
    o = Some o' /\ f = Some f' /\
    1 <= o' mod 2 ^ 64 <= 14 /\ 1 <= f' mod 2 ^ 64 <= 14 /\
    f' mod 2 ^ 64 <> o' mod 2 ^ 64 /\
    tim (o' mod 2 ^ 64) = true /\ tim (f' mod 2 ^ 64) = true.
Proof.
  unfold build_errors.
  cbn [SCHED_TICKLESS STM32_ONESHOT STM32_TICKLESS_ONESHOT
       STM32_TICKLESS_FREERUN STM32_TIM].
  destruct (bits_macro_value o) as [Bo Ro].
  destruct (bits_macro_value f) as [Bf Rf].
  rewrite !app_nil_iff, !when_nil,
    !(tim_chain_nil _ _ _ _ timer_numbers_fit), !in_timer_numbers,
    (out_of_range_false _ Ro), (out_of_range_false _ Rf).
  unfold cpp_eqb. rewrite Z.eqb_neq.
  destruct os; cbn [negb];
    [|split; [intros (H & _); discriminate H|intros (H & _); discriminate H]].
  destruct o as [o|];
    [|split; [intros (_ & _ & _ & H & _); discriminate H
             |intros (_ & o' & f' & H & _); discriminate H]].
  destruct f as [f|];
    [|split; [intros (_ & _ & H & _); discriminate H
             |intros (_ & o' & f' & _ & H & _); discriminate H]].
  rewrite Bo, Bf. split.
  - intros (_ & _ & _ & _ & Ho & Hov & Hf & Hfv & Hne).
    split; [reflexivity|]. exists o, f.
    repeat split; try lia; [apply Ho|apply Hf]; lia.
  - intros (_ & o' & f' & Eo & Ef & Ho & Hf & Hne & To & Tf).
    injection Eo as <-. injection Ef as <-.
    repeat split; try reflexivity; try (intros _; assumption); lia.
Qed.

(** X9.  With [CONFIG_SCHED_TICKLESS] defined, the file gives no [#error]
    exactly when the one-shot driver is selected, both timer numbers are
    defined, lie between 1 and 14 and differ, and the two timers they
    designate are selected, each timer number being taken as the
    preprocessor takes it, in 64 bits: 18446744073709551621, which is
    [2 ^ 64 + 5], stands for timer 5.  For numbers of a magnitude below
    [2 ^ 63] that is the number itself.  Whether [CONFIG_STM32_FREERUN],
    the free-running driver, is selected plays no part: no directive
    tests it. *)
Theorem build_errors_nil :
  forall c : config,
    SCHED_TICKLESS c = true ->
    (build_errors c = [] <->
     STM32_ONESHOT c = true /\
     exists o f,
       STM32_TICKLESS_ONESHOT c = Some o /\
       STM32_TICKLESS_FREERUN c = Some f /\
       1 <= o mod 2 ^ 64 <= 14 /\ 1 <= f mod 2 ^ 64 <= 14 /\
       f mod 2 ^ 64 <> o mod 2 ^ 64 /\
       STM32_TIM c (o mod 2 ^ 64) = true /\
       STM32_TIM c (f mod 2 ^ 64) = true) /\
    (fits_intmax (STM32_TICKLESS_ONESHOT c) = true ->
     fits_intmax (STM32_TICKLESS_FREERUN c) = true ->
     (build_errors c = [] <->
      STM32_ONESHOT c = true /\
      exists o f,
        STM32_TICKLESS_ONESHOT c = Some o /\
        STM32_TICKLESS_FREERUN c = Some f /\
        1 <= o <= 14 /\ 1 <= f <= 14 /\ f <> o /\
        STM32_TIM c o = true /\ STM32_TIM c f = true)) /\
    (forall b : bool,
        build_errors (mk_config (SCHED_TICKLESS c) (STM32_ONESHOT c) b
                                (STM32_TICKLESS_ONESHOT c)
                                (STM32_TICKLESS_FREERUN c) (STM32_TIM c))
        = build_errors c).
Proof.
  intros [t os fr o f tim] Ht. cbn in Ht. subst t.
  cbn [SCHED_TICKLESS STM32_ONESHOT STM32_TICKLESS_ONESHOT
       STM32_TICKLESS_FREERUN STM32_TIM].
  split; [apply build_errors_nil_bits|]. split; [|reflexivity].
  intros Fo Ff. rewrite build_errors_nil_bits. split.
  - intros (Hos & o' & f' & -> & -> & Ho & Hf & Hne & To & Tf).
    destruct (fits_intmax_bits o' Fo) as [Io Eo].
    destruct (fits_intmax_bits f' Ff) as [If Ef].
    apply Io in Ho. apply If in Hf.
    rewrite (Eo Ho) in *. rewrite (Ef Hf) in *.
    split; [exact Hos|]. exists o', f'. auto 10.
  - intros (Hos & o' & f' & -> & -> & Ho & Hf & Hne & To & Tf).
    destruct (fits_intmax_bits o' Fo) as [Io Eo].
    destruct (fits_intmax_bits f' Ff) as [If Ef].
    split; [exact Hos|]. exists o', f'.
    rewrite (Eo Ho), (Ef Hf). auto 10.
Qed.

(** ** The statements above, tried *)

(** Timers 2 and 5, both selected. *)
Lemma build_errors_nil_witness :
  SCHED_TICKLESS config_2_5 = true /\ build_errors config_2_5 = [].
Proof.
  split; [reflexivity|].
  destruct (build_errors_nil config_2_5 eq_refl) as (_ & H & _).
  destruct (H eq_refl eq_refl) as [_ H'].
  apply H'. split; [reflexivity|]. exists 2, 5.
  repeat split; try reflexivity; try lia; discriminate.
Defined.

(** The free-running timer given as [2 ^ 64 + 5]: the file builds, with
    timer 5; given as 15, it does not. *)
Example build_errors_in_64_bits :
  build_errors (mk_config true true false (Some 2) (Some 18446744073709551621)
                          (fun n => (n =? 2) || (n =? 5))) = [] /\
  build_errors (mk_config true true false (Some 2) (Some 15)
                          (fun n => (n =? 2) || (n =? 5)))
    = [Error_TICKLESS_FREERUN_not_valid].
Proof. split; vm_compute; reflexivity. Qed.

(** The free-running timer does not initialise: the system halts. *)
Lemma up_timer_initialize_halts_only_on_failure_witness :
  halted (up_timer_initialize 0 (mk_timespec 0 0)
                              (at_reset 2 5 1000 hw_no_counter)) = true
  <-> 0 < 0 \/ -19 < 0.
Proof.
  eapply (up_timer_initialize_halts_only_on_failure (spec_platform 2 5 1000));
    reflexivity.
Defined.

(** A wait on the drivers of the specification, the alarm being armed for
    the next tick: the reading of the clock takes that tick, the interrupt
    is taken before the cancellation. *)
Lemma busy_wait_ends_one_of_two_ways_witness :
  let m := machine_of (up_timer_start (mk_timespec 0 1000000)
                                      (initialised 1000 hw_fresh)) in
  exists v' m',
    busy_wait (spec_platform 2 5 1000) 3 0 (locals_init (mk_timespec 0 0)) m
      = Returns v' m' /\
    ((test_cnt m' <> 0 /\
      count_calls call_eqb_cancel (calls m') =
        count_calls call_eqb_cancel (calls m)) \/
     ((exists l1 l2 rest,
          calls m' =
            l2 ++ Call_stm32_oneshot_cancel :: l1 ++
            Call_hrt_absolute_time :: rest /\
          (l1 = [] \/ l1 = [Call_sched_timer_expiration]) /\
          (l2 = [] \/ l2 = [Call_sched_timer_expiration])) /\
      count_calls call_eqb_cancel (calls m') =
        S (count_calls call_eqb_cancel (calls m)) /\
      delay (locals_init (mk_timespec 0 0)) / 2 <= D v' /\
      D v' = wrap_u64 (Tn v' - Ts (locals_init (mk_timespec 0 0))))).
Proof.
  intros m.
  assert (Hr : returned (busy_wait (spec_platform 2 5 1000) 3 0
                                   (locals_init (mk_timespec 0 0)) m) = true)
    by (vm_compute; reflexivity).
  destruct (busy_wait (spec_platform 2 5 1000) 3 0
                      (locals_init (mk_timespec 0 0)) m)
    as [v' m'|m'|m'] eqn:E; try discriminate Hr.
  exists v', m'. split; [reflexivity|].
  exact (busy_wait_ends_one_of_two_ways _ _ _ _ _ _ _ E).
Defined.

(** The log of that wait: the notification falls between the reading and
    the cancellation. *)
Example busy_wait_cancels_after_expiry :
  calls (machine_of
           (busy_wait (spec_platform 2 5 1000) 3 0 (locals_init (mk_timespec 0 0))
                      (machine_of (up_timer_start (mk_timespec 0 1000000)
                                                  (initialised 1000 hw_fresh))))) =
  [Call_stm32_oneshot_cancel; Call_sched_timer_expiration;
   Call_hrt_absolute_time;
   Call_stm32_oneshot_start stm32_oneshot_handler_ptr NULL
                            (mk_timespec 0 1000000)].
Proof. vm_compute. reflexivity. Qed.

(** The stalled board: the wait goes on whatever the number of rounds. *)
Lemma up_timer_initialize_waits_forever_witness :
  exists m',
    up_timer_initialize 1000 (mk_timespec 0 0) stalled_at_reset = Spins m' /\
    count_calls call_eqb_start (calls m') = 1%nat /\
    count_calls call_eqb_cancel (calls m') = 0%nat /\
    count_calls call_eqb_expiration (calls m') = 0%nat.
Proof.
  eapply (up_timer_initialize_waits_forever
            stalled_platform (fun _ _ => eq_refl) 0 (fun _ => eq_refl)
            (mk_timespec 0 0) stalled_at_reset 0 0);
    try reflexivity; lia.
Defined.

Lemma spec_clock_advances (oneshot_chan freerun_chan : Z) :
  clock_advances (spec_platform oneshot_chan freerun_chan 1000)
                 (fun h => Spec.now h * 1000) 1000.
Proof.
  split.
  - intros w. cbn [hrt_absolute_time spec_platform fst snd].
    rewrite now_elapse. split; [|lia].
    unfold wrap_u64. apply Z.mod_mod. lia.
  - intros o w o' w'. cbn [oneshot_irq sched_timer_expiration spec_platform].
    unfold Spec.alarm_fires.
    destruct (Spec.alarm o) as [|d h x]; [discriminate|].
    destruct (d <=? Spec.now w); [|discriminate].
    intros H. injection H as _ <-. lia.
Qed.

(** The drivers of the specification with a tick of a millisecond: the
    clock advances by 1000 microseconds at each reading. *)
Lemma up_timer_initialize_returns_witness :
  returned (up_timer_initialize (Z.to_nat 2007500) (mk_timespec 0 0)
                                (at_reset 2 5 1000 hw_fresh)) = true.
Proof.
  eapply (up_timer_initialize_returns
            (spec_platform 2 5 1000) (fun h => Spec.now h * 1000) 1000
            (spec_clock_advances 2 5)).
  - lia.
  - rewrite Z2Nat.id; lia.
  - reflexivity.
  - apply Z.le_refl.
  - reflexivity.
  - apply Z.le_refl.
Defined.

(** Readings only, and arming and cancelling only. *)
Lemma requests_touch_their_own_half_witness :
  (forallb is_gettime_request [Req_gettime None; Req_gettime None] = true ->
   oneshot (g_tickless
              (machine_of (serve_all [Req_gettime None; Req_gettime None]
                                     (initialised 1000 hw_fresh)))) =
     Spec.mk_oneshot 1000 Spec.IDLE) /\
  freerun (g_tickless
             (machine_of (serve_all [Req_start (mk_timespec 1 0); Req_cancel None]
                                    (initialised 1000 hw_fresh)))) =
    Spec.mk_freerun 1000.
Proof.
  destruct (requests_touch_their_own_half
              (spec_platform 2 5 1000)
              [Req_gettime None; Req_gettime None]
              (initialised 1000 hw_fresh)) as [H1 _].
  destruct (requests_touch_their_own_half
              (spec_platform 2 5 1000)
              [Req_start (mk_timespec 1 0); Req_cancel None]
              (initialised 1000 hw_fresh)) as [_ H2].
  split; [exact H1|]. exact (H2 eq_refl).
Defined.

(** The drivers of the specification with a tick of one second: as many
    increments as notifications. *)
Lemma up_timer_initialize_counts_notifications_witness :
  - 2 ^ 31 <= test_cnt (at_reset 2 5 1000000 hw_fresh) < 2 ^ 31 /\
  exists l,
    calls (machine_of (up_timer_initialize 8 (mk_timespec 0 0)
                                           (at_reset 2 5 1000000 hw_fresh)))
      = l ++ [] /\
    test_cnt (machine_of (up_timer_initialize 8 (mk_timespec 0 0)
                                              (at_reset 2 5 1000000 hw_fresh)))
      = wrap_int (0 + Z.of_nat (count_calls call_eqb_expiration l)).
Proof.
  assert (H : - 2 ^ 31 <= test_cnt (at_reset 2 5 1000000 hw_fresh) < 2 ^ 31)
    by (cbn; lia).
  split; [exact H|].
  destruct (up_timer_initialize_counts_notifications
              (spec_platform 2 5 1000000) 8 (mk_timespec 0 0)
              (at_reset 2 5 1000000 hw_fresh) H) as (l & Hl & Ht & _).
  exists l. split; [exact Hl|exact Ht].
Defined.

(** ** How the armed intervals end *)

Section Ending.

Variable P : platform.
Implicit Types m : system P.

Lemma extends_counts (f : call -> bool) m m' :
  extends m m' -> (count_calls f (calls m) <= count_calls f (calls m'))%nat.
Proof. intros [l H]. rewrite H, count_calls_app. lia. Qed.

Lemma extends_ended m m' : extends m m' -> (ended m <= ended m')%nat.
Proof.
  intros H. unfold ended.
  pose proof (extends_counts call_eqb_cancel _ _ H).
  pose proof (extends_counts call_eqb_expiration _ _ H). lia.
Qed.

Lemma counted_extends m m' : counted m m' -> extends m m'.
Proof. intros (l & H & _). exists l. exact H. Qed.

Lemma ends_grows (A : Type) (x : M P A) : grows x -> ends_at_least 0 x.
Proof.
  intros Hx m a' m' H. specialize (Hx m). rewrite H in Hx. cbn in Hx.
  pose proof (extends_ended _ _ Hx). lia.
Qed.

Lemma ends_bind (A B : Type) (x : M P A) (g : A -> M P B) n1 n2 :
  ends_at_least n1 x -> (forall a', ends_at_least n2 (g a')) ->
  ends_at_least (n1 + n2) (bind x g).
Proof.
  intros Hx Hg m b m' H.
  destruct (bind_inversion P _ _ _ _ _ _ _ H) as (a' & m1 & E1 & E2).
  specialize (Hx _ _ _ E1). specialize (Hg _ _ _ _ E2). lia.
Qed.

Lemma counted_step (A : Type) (x : M P A) m a' m' :
  keeps counted x -> x m = Returns a' m' -> counted m m'.
Proof. intros Hx H. specialize (Hx m). rewrite H in Hx. exact Hx. Qed.

Lemma counted_do_PROBE n b : keeps counted (do_PROBE P n b).
Proof.
  eapply counted_one_call with (c := Call_PROBE n b); [reflexivity|].
  intros m. split; reflexivity.
Qed.

Lemma counted_do_hrt_absolute_time : keeps counted (do_hrt_absolute_time P).
Proof.
  eapply counted_one_call with (c := Call_hrt_absolute_time); [reflexivity|].
  intros m. unfold do_hrt_absolute_time. split_pairs. split; reflexivity.
Qed.

Lemma counted_up_timer_cancel p : keeps counted (up_timer_cancel (P := P) p).
Proof.
  eapply counted_one_call with (c := Call_stm32_oneshot_cancel); [reflexivity|].
  intros m. unfold up_timer_cancel. split_pairs. split; reflexivity.
Qed.

Lemma counted_up_timer_start ts : keeps counted (up_timer_start (P := P) ts).
Proof.
  eapply counted_one_call
    with (c := Call_stm32_oneshot_start stm32_oneshot_handler_ptr NULL ts);
    [reflexivity|].
  intros m. unfold up_timer_start. split_pairs. split; reflexivity.
Qed.

Lemma counted_busy_wait spin cnt v : keeps counted (busy_wait P spin cnt v).
Proof.
  apply keeps_busy_wait.
  - apply counted_refl.
  - apply counted_trans.
  - apply counted_irq_window.
  - apply counted_do_hrt_absolute_time.
  - apply counted_up_timer_cancel.
Qed.

(** A round of the loop that comes to its end has seen its interval end:
    by a cancellation, or by a notification that changed [test_cnt]. *)
Lemma ends_sweep_body spin s i v : ends_at_least 1 (sweep_body P spin s i v).
Proof.
  intros m v' m' H. unfold sweep_body in H.
  destruct (bind_inversion P _ _ _ _ _ _ _ H) as (cnt & m1 & E1 & H1).
  destruct (bind_inversion P _ _ _ _ _ _ _ H1) as (u2 & m2 & E2 & H2).
  destruct (bind_inversion P _ _ _ _ _ _ _ H2) as (r & m3 & E3 & H3).
  destruct (bind_inversion P _ _ _ _ _ _ _ H3) as (u3 & mw & Ew & Hw).
  destruct (bind_inversion P _ _ _ _ _ _ _ Hw) as (t & m4 & E4 & H4).
  destruct (bind_inversion P _ _ _ _ _ _ _ H4) as (v5 & m5 & E5 & H5).
  destruct (bind_inversion P _ _ _ _ _ _ _ H5) as (u5 & mx & Ex & Hx).
  destruct (bind_inversion P _ _ _ _ _ _ _ Hx) as (u6 & m6 & E6 & H6).
  unfold ret in H6. inversion H6; subst; clear H6.
  destruct (read_test_cnt_inversion P _ _ _ E1) as (Hcnt & _ & _).
  pose proof (grows_read_test_cnt P m) as G1. rewrite E1 in G1. cbn in G1.
  pose proof (counted_step _ _ _ _ _ (counted_do_PROBE 3 true) E2) as K2.
  pose proof (counted_step _ _ _ _ _ (counted_up_timer_start _) E3) as K3.
  pose proof (counted_step _ _ _ _ _ (counted_irq_window P) Ew) as Kw.
  pose proof (counted_step _ _ _ _ _ counted_do_hrt_absolute_time E4) as K4.
  pose proof (counted_step _ _ _ _ _ (counted_busy_wait _ _ _) E5) as K5.
  pose proof (counted_step _ _ _ _ _ (counted_irq_window P) Ex) as Kx.
  pose proof (counted_step _ _ _ _ _ (counted_do_PROBE 3 false) E6) as K6.
  pose proof (counted_trans P _ _ _ K2
                (counted_trans P _ _ _ K3 (counted_trans P _ _ _ Kw K4)))
    as K14.
  pose proof (counted_trans P _ _ _ K14 K5) as K15.
  pose proof (extends_ended _ _ G1) as L1.
  pose proof (extends_ended _ _ (counted_extends _ _ Kx)) as Lx.
  pose proof (extends_ended _ _ (counted_extends _ _ K6)) as L6.
  assert (L5 : (ended m1 + 1 <= ended m5)%nat).
  { destruct (busy_wait_ends_or_cancels P _ _ _ _ _ _ E5) as [Hchg|Hcan].
    - destruct K15 as (l & Hl & Ht).
      destruct (count_calls call_eqb_expiration l) as [|k] eqn:Ek.
      + cbn in Ht. congruence.
      + unfold ended. rewrite Hl, !count_calls_app, Ek. lia.
    - pose proof (extends_counts call_eqb_cancel _ _ (counted_extends _ _ K14)).
      pose proof (extends_counts call_eqb_expiration _ _
                                 (counted_extends _ _ K15)).
      unfold ended. lia. }
  lia.
Qed.

Lemma ends_while_j (body : locals -> M P locals) n :
  (forall v, ends_at_least n (body v)) ->
  forall j v, ends_at_least (j * n) (while_j P j body v).
Proof.
  intros Hb. induction j as [|j IH]; intros v; cbn [while_j Nat.mul].
  - intros m a' m' H. inversion H; subst. lia.
  - apply ends_bind; [apply Hb|]. intros v'. apply IH.
Qed.

Lemma ends_for_loop (body : Z -> locals -> M P locals) hi step n :
  (forall x v, ends_at_least n (body x v)) ->
  forall k x v,
    ends_at_least (rounds k x hi step * n) (for_loop P k x hi step body v).
Proof.
  intros Hb. induction k as [|k IH]; intros x v; cbn [for_loop rounds].
  - intros m a' m' H. inversion H; subst. cbn. lia.
  - destruct (x <? hi).
    + cbn [Nat.mul]. apply ends_bind; [apply Hb|]. intros v'. apply IH.
    + intros m a' m' H. inversion H; subst. cbn. lia.
Qed.

Lemma ends_sweep spin stack : ends_at_least 1500 (sweep P spin stack).
Proof.
  assert (H : ends_at_least
                (rounds 6 0 5 1 * (rounds 151 50 15000 100 * (2 * 1)) + 0)
                (sweep P spin stack)).
  { unfold sweep. apply ends_bind.
    - apply ends_for_loop. intros s v.
      apply ends_for_loop. intros i v0.
      apply ends_while_j. intros v1. apply ends_sweep_body.
    - intros v m a' m' E. inversion E; subst. lia. }
  replace (rounds 6 0 5 1) with 5%nat in H by reflexivity.
  replace (rounds 151 50 15000 100) with 150%nat in H
    by (vm_compute; reflexivity).
  intros m a' m' E. specialize (H m a' m' E). lia.
Qed.

(** X11.  When [up_timer_initialize] returns, each of the 1500 intervals
    that it armed has been brought to an end inside the function: the
    cancellations and the notifications of the scheduler made since it was
    entered number at least 1500 together.  No round of the loop is left
    without the one or the other. *)
Theorem up_timer_initialize_ends_every_interval :
  forall (spin : nat) (stack : timespec) m (u : unit) (m' : system P),
    up_timer_initialize spin stack m = Returns u m' ->
    (count_calls call_eqb_cancel (calls m)
     + count_calls call_eqb_expiration (calls m) + 1500
     <= count_calls call_eqb_cancel (calls m')
        + count_calls call_eqb_expiration (calls m'))%nat.
Proof.
  intros spin stack m u m' H.
  assert (G : ends_at_least (0 + (0 + (0 + (0 + (0 + 1500)))))
                            (up_timer_initialize (P := P) spin stack)).
  { unfold up_timer_initialize.
    apply ends_bind.
    { apply ends_grows. intros m0. unfold call_stm32_oneshot_initialize.
      split_pairs. eexists [_]. reflexivity. }
    intros r1. apply ends_bind.
    { apply ends_grows, grows_if; [apply grows_do_PANIC|apply grows_ret]. }
    intros _. apply ends_bind.
    { apply ends_grows. intros m0. unfold call_stm32_freerun_initialize.
      split_pairs. eexists [_]. reflexivity. }
    intros r2. apply ends_bind.
    { apply ends_grows, grows_if; [apply grows_do_PANIC|apply grows_ret]. }
    intros _. apply ends_bind; [apply ends_grows, grows_do_hrt_init|].
    intros _. apply ends_sweep. }
  specialize (G m u m' H). unfold ended in G. lia.
Qed.

End Ending.

(** The drivers of the specification with a tick of one second. *)
Lemma up_timer_initialize_ends_every_interval_witness :
  returned (up_timer_initialize 8 (mk_timespec 0 0)
                                (at_reset 2 5 1000000 hw_fresh)) = true /\
  (1500 <=
   count_calls call_eqb_cancel
     (calls (machine_of (up_timer_initialize 8 (mk_timespec 0 0)
                                             (at_reset 2 5 1000000 hw_fresh))))
   + count_calls call_eqb_expiration
       (calls (machine_of (up_timer_initialize 8 (mk_timespec 0 0)
                                               (at_reset 2 5 1000000 hw_fresh)))))%nat.
Proof.
  assert (Hr : returned (up_timer_initialize 8 (mk_timespec 0 0)
                                             (at_reset 2 5 1000000 hw_fresh))
               = true) by (vm_compute; reflexivity).
  split; [exact Hr|].
  destruct (up_timer_initialize 8 (mk_timespec 0 0)
                                (at_reset 2 5 1000000 hw_fresh))
    as [u m'|m'|m'] eqn:E; try discriminate Hr.
  pose proof (up_timer_initialize_ends_every_interval _ _ _ _ _ _ E) as H.
  cbn [machine_of]. cbn [calls at_reset] in H.
  change (count_calls call_eqb_cancel []) with 0%nat in H.
  change (count_calls call_eqb_expiration []) with 0%nat in H.
  exact H.
Defined.
